(** * COBS.h: Consistent Overhead Byte Stuffing, encoder and decoder

    A shallow embedding of the three static member functions of class
    [COBS] (file COBS.h) and the properties of them that the specification
    states.

    Conventions of the embedding.
    - A [uint8_t] or [uint16_t] value is a [Z] in its range; every
      increment of such a variable is followed by its wrap-around
      ([uint8], [uint16]).  Operands of [+], [/], [<], [>], [==] and [!=]
      are promoted to [int] before the operation, as C++ does; [int] is
      taken to be 32 bits wide, as on the usual targets, so the sums of
      the code ([read_index + code], [headerSize + sourceSize +
      trailerSize], ...) are exact and only the conversion back to
      [uint16_t] wraps.
    - A buffer is the list of the bytes of the array the pointer points
      to.  Reading or writing outside that array is undefined behaviour in
      C++; here it stops the run with [ReadFault i] or [WriteFault i],
      [i] being the offending index.  Source and destination are distinct
      lists, so they never overlap.
    - A loop is a [Fixpoint] on a fuel; the function that calls it passes
      the bound of the loop as fuel, and the theorems show that the fuel
      never runs out. *)

From Stdlib Require Import ZArith Lia List.
From stdpp Require Import base numbers list relations.

Local Open Scope Z_scope.

(** ** Machine integers *)

Definition uint8 (z : Z) : Z := z mod 256.
Definition uint16 (z : Z) : Z := z mod 65536.

Definition is_uint16 (z : Z) : Prop := 0 <= z <= 65535.

(** The bytes of a buffer are [uint8_t] values. *)
Definition byteb (z : Z) : bool := (0 <=? z) && (z <=? 255).
Definition bytes (l : list Z) : Prop := forallb byteb l = true.

(** ** Runs that may fault *)

Inductive outcome (A : Type) : Type :=
| Ok (a : A)
| ReadFault (i : Z)
| WriteFault (i : Z)
| OutOfFuel.

Arguments Ok {A} a.
Arguments ReadFault {A} i.
Arguments WriteFault {A} i.
Arguments OutOfFuel {A}.

Definition bind {A B : Type} (m : outcome A) (k : A -> outcome B) : outcome B :=
  match m with
  | Ok a => k a
  | ReadFault i => ReadFault i
  | WriteFault i => WriteFault i
  | OutOfFuel => OutOfFuel
  end.

Notation "'do' x <- m ; k" := (bind m (fun x => k))
  (at level 10, x name, m at level 100, k at level 200).

(** [buffer[i]] as an rvalue. *)
Definition load (buffer : list Z) (i : Z) : outcome Z :=
  match buffer !! Z.to_nat i with
  | Some v => Ok v
  | None => ReadFault i
  end.

(** [buffer[i] = v]. *)
Definition store (buffer : list Z) (i : Z) (v : Z) : outcome (list Z) :=
  if i <? Z.of_nat (length buffer)
  then Ok (<[Z.to_nat i := v]> buffer)
  else WriteFault i.

(** What the body of a loop asks for: another iteration, or to leave the
    function with a value. *)
Inductive control (S R : Type) : Type :=
| Continue (s : S)
| Return (r : R).

Arguments Continue {S R} s.
Arguments Return {S R} r.

(** ** encode *)

Module Enc.
Record state : Type := mk {
  read_index : Z;
  write_index : Z;
  code_index : Z;
  code : Z;
  destination : list Z
}.
End Enc.

(** The body of the three [while] loops of [encode] (lines 48-66, 74-92
    and 100-118), which differ in the source buffer only. *)
Definition encode_body (source : list Z) (st : Enc.state) : outcome Enc.state :=
  let '(Enc.mk read_index write_index code_index code destination) := st in
  do b <- load source read_index;
  if b =? 0 then
    do destination <- store destination code_index code;
    let code := 1 in
    let code_index := write_index in
    let write_index := uint16 (write_index + 1) in
    let read_index := uint16 (read_index + 1) in
    Ok (Enc.mk read_index write_index code_index code destination)
  else
    do b <- load source read_index;
    do destination <- store destination write_index b;
    let write_index := uint16 (write_index + 1) in
    let read_index := uint16 (read_index + 1) in
    let code := uint8 (code + 1) in
    if code =? 255 then
      do destination <- store destination code_index code;
      let code := 1 in
      let code_index := write_index in
      let write_index := uint16 (write_index + 1) in
      Ok (Enc.mk read_index write_index code_index code destination)
    else
      Ok (Enc.mk read_index write_index code_index code destination).

(** [while(read_index < sourceSize) { ... }] *)
Fixpoint encode_while (fuel : nat) (source : list Z) (sourceSize : Z)
    (st : Enc.state) : outcome Enc.state :=
  if Enc.read_index st <? sourceSize then
    match fuel with
    | O => OutOfFuel
    | S fuel =>
        do st <- encode_body source st;
        encode_while fuel source sourceSize st
    end
  else Ok st.

(** One segment: [read_index = 0;] and the loop over the segment.  The
    loop adds one to [read_index] at each iteration, so it runs
    [sourceSize] times. *)
Definition encode_segment (source : list Z) (sourceSize : Z) (st : Enc.state)
    : outcome Enc.state :=
  let '(Enc.mk _ write_index code_index code destination) := st in
  encode_while (Z.to_nat sourceSize) source sourceSize
    (Enc.mk 0 write_index code_index code destination).

(** [COBS::encode]: the returned length and the destination buffer. *)
Definition encode (sourceHeader : list Z) (sourceHeaderSize : Z)
    (sourceBody : list Z) (sourceBodySize : Z)
    (sourceTrailer : list Z) (sourceTrailerSize : Z)
    (destination : list Z) : outcome (Z * list Z) :=
  let st := Enc.mk 0 1 0 1 destination in
  do st <- encode_segment sourceHeader sourceHeaderSize st;
  do st <- encode_segment sourceBody sourceBodySize st;
  do st <- encode_segment sourceTrailer sourceTrailerSize st;
  do destination <- store (Enc.destination st) (Enc.code_index st) (Enc.code st);
  Ok (Enc.write_index st, destination).

(** ** decode *)

Module Dec.
Record state : Type := mk {
  read_index : Z;
  write_index : Z;
  destination : list Z
}.
End Dec.

(** [for(i = 1; i < code; i++) destination[write_index++] = source[read_index++];] *)
Fixpoint decode_for (fuel : nat) (source : list Z) (code : Z) (i : Z)
    (st : Dec.state) : outcome Dec.state :=
  if i <? code then
    match fuel with
    | O => OutOfFuel
    | S fuel =>
        let '(Dec.mk read_index write_index destination) := st in
        do b <- load source read_index;
        do destination <- store destination write_index b;
        let write_index := uint16 (write_index + 1) in
        let read_index := uint16 (read_index + 1) in
        decode_for fuel source code (uint8 (i + 1))
          (Dec.mk read_index write_index destination)
    end
  else Ok st.

(** The body of the [while] loop of [decode] (lines 142-159). *)
Definition decode_body (source : list Z) (size : Z) (st : Dec.state)
    : outcome (control Dec.state (Z * list Z)) :=
  let '(Dec.mk read_index write_index destination) := st in
  do code <- load source read_index;
  if (read_index + code >? size) && negb (code =? 1) then
    Ok (Return (0, destination))
  else
    let read_index := uint16 (read_index + 1) in
    do st <- decode_for (Z.to_nat code) source code 1
               (Dec.mk read_index write_index destination);
    let '(Dec.mk read_index write_index destination) := st in
    if negb (code =? 255) && negb (read_index =? size) then
      do destination <- store destination write_index 0;
      let write_index := uint16 (write_index + 1) in
      Ok (Continue (Dec.mk read_index write_index destination))
    else
      Ok (Continue (Dec.mk read_index write_index destination)).

(** [while(read_index < size) { ... }]: [Continue st] when the condition
    fails in state [st], [Return r] when the body returns [r]. *)
Fixpoint decode_while (fuel : nat) (source : list Z) (size : Z)
    (st : Dec.state) : outcome (control Dec.state (Z * list Z)) :=
  if Dec.read_index st <? size then
    match fuel with
    | O => OutOfFuel
    | S fuel =>
        do c <- decode_body source size st;
        match c with
        | Continue st => decode_while fuel source size st
        | Return r => Ok (Return r)
        end
    end
  else Ok (Continue st).

(** [COBS::decode] with the fuel of its loop as a parameter. *)
Definition decode_fuel (fuel : nat) (source : list Z) (size : Z)
    (destination : list Z) : outcome (Z * list Z) :=
  do c <- decode_while fuel source size (Dec.mk 0 0 destination);
  match c with
  | Continue st => Ok (Dec.write_index st, Dec.destination st)
  | Return r => Ok r
  end.

(** [COBS::decode]: the returned length and the destination buffer.  Each
    iteration of the loop adds at least one to [read_index], so [size]
    iterations are enough. *)
Definition decode (source : list Z) (size : Z) (destination : list Z)
    : outcome (Z * list Z) :=
  decode_fuel (Z.to_nat size) source size destination.

(** ** getEncodedBufferSize *)

Definition getEncodedBufferSize (headerSize sourceSize trailerSize : Z) : Z :=
  let total := uint16 (headerSize + sourceSize + trailerSize) in
  uint16 (total + total / 254 + 1).

(** ** The encoder as a fold over the bytes of its input

    The variables of [encode] other than [read_index], and the loop body
    as a function of the byte it reads.  [encode_segment] runs this step
    over the bytes of the segment in order ([encode_segment_bytes]). *)

Record encoder : Type := Encoder {
  enc_write : Z;
  enc_code_index : Z;
  enc_code : Z;
  enc_dest : list Z
}.

Definition enc_byte (b : Z) (s : encoder) : outcome encoder :=
  let '(Encoder write_index code_index code destination) := s in
  if b =? 0 then
    do destination <- store destination code_index code;
    Ok (Encoder (uint16 (write_index + 1)) write_index 1 destination)
  else
    do destination <- store destination write_index b;
    let write_index := uint16 (write_index + 1) in
    let code := uint8 (code + 1) in
    if code =? 255 then
      do destination <- store destination code_index code;
      Ok (Encoder (uint16 (write_index + 1)) write_index 1 destination)
    else
      Ok (Encoder write_index code_index code destination).

Fixpoint enc_bytes (l : list Z) (s : encoder) : outcome encoder :=
  match l with
  | [] => Ok s
  | b :: l => do s <- enc_byte b s; enc_bytes l s
  end.

Definition with_read (read_index : Z) (s : encoder) : Enc.state :=
  Enc.mk read_index (enc_write s) (enc_code_index s) (enc_code s) (enc_dest s).

Definition enc_finish (s : encoder) : outcome (Z * list Z) :=
  do destination <- store (enc_dest s) (enc_code_index s) (enc_code s);
  Ok (enc_write s, destination).

(** The invariant of the loops of [encode].  [n] bytes have been read;
    [W] is what [write_index] would be without wrap-around; [nz] tells
    that no byte read so far was zero.  [W - 1 - n] is the number of code
    bytes 0xFF written so far, each of which stands for 254 bytes read;
    every byte below [W] other than the slot kept for the next code byte
    has been written with a non-zero value. *)
Record enc_inv (cap : Z) (nz : bool) (n W : Z) (s : encoder) : Prop := {
  inv_code : 1 <= enc_code s <= 254;
  inv_n : 0 <= n;
  inv_flushes : 0 <= W - 1 - n;
  inv_run : 254 * (W - 1 - n) + (enc_code s - 1) <= n;
  inv_exact : nz = true -> 254 * (W - 1 - n) + (enc_code s - 1) = n;
  inv_write : enc_write s = W mod 65536;
  inv_code_index : enc_code_index s = (W - enc_code s) mod 65536;
  inv_nonzero : forall i, 0 <= i < Z.min W 65536 -> i <> enc_code_index s ->
    exists v, enc_dest s !! Z.to_nat i = Some v /\ 1 <= v <= 255;
  inv_length : Z.of_nat (length (enc_dest s)) = cap
}.

(** No byte of [l] is zero. *)
Definition nonzerob (l : list Z) : bool := forallb (fun b => negb (b =? 0)) l.

(** [splice buffer w l]: [buffer] with the bytes [l] written from index
    [w] on. *)
Definition splice (buffer : list Z) (w : nat) (l : list Z) : list Z :=
  take w buffer ++ l ++ drop (w + length l) buffer.

(** ** The run of [decode] as a step relation

    One iteration of the loop of [decode] that ends at the bottom of the
    body; the states in [rtc (decode_step source size)] of the first one
    are the states in which [decode] evaluates the condition of its loop. *)
Definition decode_step (source : list Z) (size : Z) (st st' : Dec.state) : Prop :=
  Dec.read_index st < size /\ decode_body source size st = Ok (Continue st').

(** In state [st] the loop reads a code byte that claims more bytes than
    remain and is not 1: the test of line 144 holds. *)
Definition malformed_at (source : list Z) (size : Z) (st : Dec.state) : Prop :=
  Dec.read_index st < size /\
  exists code, load source (Dec.read_index st) = Ok code /\
    Dec.read_index st + code > size /\ code <> 1.

(** ** The groups of the code

    The code is a sequence of groups: a code byte, which is one more than
    the number of data bytes of the group, and the data bytes. *)
Definition group (data : list Z) : list Z :=
  (1 + Z.of_nat (length data)) :: data.

Definition groups (gs : list (list Z)) : list Z := concat (map group gs).

(** The bytes a group stands for: its data, and a zero byte unless the
    code byte is 0xFF or the group is the last one. *)
Definition group_bytes (last : bool) (data : list Z) : list Z :=
  data ++ (if (Z.of_nat (length data) =? 254) || last then [] else [0]).

Definition inner_bytes (gs : list (list Z)) : list Z :=
  concat (map (group_bytes false) gs).

Fixpoint groups_bytes (gs : list (list Z)) : list Z :=
  match gs with
  | [] => []
  | data :: gs => group_bytes (match gs with [] => true | _ => false end) data
                  ++ groups_bytes gs
  end.

(** The state of the encoder after it has read [input], as long as
    [write_index] has not wrapped around: the destination starts with the
    finished groups [done], a slot for the code byte of the current group,
    and the data [cur] of that group. *)
Record enc_rep (input : list Z) (done : list (list Z)) (cur : list Z)
    (s : encoder) : Prop := {
  rep_input : inner_bytes done ++ cur = input;
  rep_done : Forall (fun data => (length data <= 254)%nat) done;
  rep_cur : (length cur <= 253)%nat;
  rep_code : enc_code s = 1 + Z.of_nat (length cur);
  rep_code_index : enc_code_index s = Z.of_nat (length (groups done));
  rep_write : enc_write s = Z.of_nat (length (groups done)) + 1 + Z.of_nat (length cur);
  rep_dest : exists x rest, enc_dest s = groups done ++ x :: cur ++ rest
}.

(** What the loop of [decode] gives from a state in which the condition
    of the loop is evaluated. *)
Definition decode_while_post (source : list Z) (size : Z) (r w : Z)
    (destination : list Z) (c : control Dec.state (Z * list Z)) : Prop :=
  match c with
  | Return (n, d) =>
      n = 0 /\ length d = length destination /\
      drop (Z.to_nat size) d = drop (Z.to_nat size) destination /\
      exists st, rtc (decode_step source size) (Dec.mk r w destination) st /\
                 malformed_at source size st
  | Continue st' =>
      Dec.read_index st' = size /\
      w <= Dec.write_index st' <= size /\
      length (Dec.destination st') = length destination /\
      drop (Z.to_nat size) (Dec.destination st') = drop (Z.to_nat size) destination /\
      (forall st, rtc (decode_step source size) (Dec.mk r w destination) st ->
                  ~ malformed_at source size st) /\
      (Dec.write_index st' = w <->
       r = size \/
       (r + 1 = size /\ exists code, source !! Z.to_nat r = Some code /\ code <= 1))
  end.

(** A run that stops, and not on a read outside the source: it gives a
    result that satisfies [P], or it stops on a write outside the
    destination. *)
Definition reads_in_bounds {A : Type} (P : A -> Prop) (m : outcome A) : Prop :=
  match m with
  | Ok a => P a
  | WriteFault _ => True
  | ReadFault _ | OutOfFuel => False
  end.

(** Two destinations hold the same bytes below [W], the slot kept for the
    next code byte apart. *)
Definition agree (W code_index : Z) (d1 d2 : list Z) : Prop :=
  forall i, 0 <= i < W -> i <> code_index -> d1 !! Z.to_nat i = d2 !! Z.to_nat i.

(** The codes that [encode] writes.  The data bytes of a group are not
    zero and there are at most 254 of them; the last group has at most 253
    (after a group of 254 data bytes the encoder always opens another
    group). *)
Definition data_ok (data : list Z) : Prop :=
  (length data <= 254)%nat /\ Forall (fun v => 1 <= v <= 255) data.

Inductive canonical : list (list Z) -> Prop :=
| canonical_last (data : list Z) :
    data_ok data -> (length data <= 253)%nat -> canonical [data]
| canonical_cons (data : list Z) (gs : list (list Z)) :
    data_ok data -> canonical gs -> canonical (data :: gs).

(** * Theorems *)

(** ** The monad and the buffers *)

Lemma bind_assoc {A B C : Type} (m : outcome A) (f : A -> outcome B)
    (g : B -> outcome C) :
  bind (bind m f) g = bind m (fun a => bind (f a) g).
Proof. by destruct m. Qed.

Lemma bind_inv {A B : Type} (m : outcome A) (k : A -> outcome B) (b : B) :
  bind m k = Ok b -> exists a, m = Ok a /\ k a = Ok b.
Proof. destruct m; simpl; intros H; try discriminate. eauto. Qed.

Lemma load_app_r (pre l : list Z) (b : Z) :
  load (pre ++ b :: l) (Z.of_nat (length pre)) = Ok b.
Proof.
  unfold load. rewrite Nat2Z.id, list_lookup_middle; done.
Qed.

Lemma load_lt (buffer : list Z) (i : Z) :
  0 <= i < Z.of_nat (length buffer) -> exists v, load buffer i = Ok v /\ buffer !! Z.to_nat i = Some v.
Proof.
  intros Hi. unfold load.
  destruct (lookup_lt_is_Some_2 buffer (Z.to_nat i)) as [v Hv]; [lia|].
  rewrite Hv. eauto.
Qed.

Lemma store_lt (buffer : list Z) (i v : Z) :
  i < Z.of_nat (length buffer) -> store buffer i v = Ok (<[Z.to_nat i := v]> buffer).
Proof.
  intros Hi. unfold store. destruct (Z.ltb_spec i (Z.of_nat (length buffer))); [done | lia].
Qed.

Lemma store_inv (buffer : list Z) (i v : Z) (buffer' : list Z) :
  store buffer i v = Ok buffer' ->
  i < Z.of_nat (length buffer) /\ buffer' = <[Z.to_nat i := v]> buffer.
Proof.
  unfold store. destruct (Z.ltb_spec i (Z.of_nat (length buffer))) as [Hlt|Hge];
    intros Heq; [|discriminate].
  by injection Heq as <-.
Qed.

Lemma uint16_small (z : Z) : 0 <= z <= 65535 -> uint16 z = z.
Proof. intros. unfold uint16. apply Z.mod_small. lia. Qed.

Lemma uint8_small (z : Z) : 0 <= z <= 255 -> uint8 z = z.
Proof. intros. unfold uint8. apply Z.mod_small. lia. Qed.

(** ** The loops of [encode] run [enc_byte] over the bytes of the source *)

Lemma encode_body_byte (pre l : list Z) (b : Z) (s : encoder) :
  encode_body (pre ++ b :: l) (with_read (Z.of_nat (length pre)) s) =
  do s' <- enc_byte b s; Ok (with_read (uint16 (Z.of_nat (length pre) + 1)) s').
Proof.
  destruct s as [w ci c d]. unfold encode_body, enc_byte, with_read.
  cbn [enc_write enc_code_index enc_code enc_dest].
  rewrite load_app_r. cbn [bind].
  destruct (b =? 0).
  - by destruct (store d ci c).
  - destruct (store d w b) as [d'| | |]; simpl; try done.
    destruct (uint8 (c + 1) =? 255); [|done].
    by destruct (store d' ci (uint8 (c + 1))).
Qed.

Lemma encode_while_bytes (l : list Z) : forall (pre : list Z) (fuel : nat) (s : encoder),
  Z.of_nat (length (pre ++ l)) <= 65535 ->
  (length l <= fuel)%nat ->
  encode_while fuel (pre ++ l) (Z.of_nat (length (pre ++ l)))
    (with_read (Z.of_nat (length pre)) s) =
  do s' <- enc_bytes l s; Ok (with_read (Z.of_nat (length (pre ++ l))) s').
Proof.
  induction l as [|b l IH]; intros pre fuel s Hlen Hfuel.
  - rewrite app_nil_r. destruct fuel; simpl; by rewrite Z.ltb_irrefl.
  - destruct fuel as [|fuel]; [simpl in Hfuel; lia|].
    rewrite length_app in Hlen. simpl in Hlen.
    cbn [encode_while]. unfold with_read at 1. cbn [Enc.read_index].
    destruct (Z.ltb_spec (Z.of_nat (length pre)) (Z.of_nat (length (pre ++ b :: l))))
      as [_|Hge]; [|rewrite length_app in Hge; simpl in Hge; lia].
    fold (with_read (Z.of_nat (length pre)) s).
    rewrite encode_body_byte, bind_assoc. cbn [enc_bytes]. rewrite bind_assoc.
    destruct (enc_byte b s) as [s'| | |]; simpl; try done.
    rewrite uint16_small by lia.
    replace (pre ++ b :: l) with ((pre ++ [b]) ++ l) by (by rewrite <- app_assoc).
    replace (Z.of_nat (length pre) + 1) with (Z.of_nat (length (pre ++ [b])))
      by (rewrite length_app; simpl; lia).
    apply IH; [rewrite !length_app; simpl; lia | simpl in Hfuel; lia].
Qed.

Lemma encode_segment_bytes (source : list Z) (r : Z) (s : encoder) :
  Z.of_nat (length source) <= 65535 ->
  encode_segment source (Z.of_nat (length source)) (with_read r s) =
  do s' <- enc_bytes source s; Ok (with_read (Z.of_nat (length source)) s').
Proof.
  intros Hlen. unfold encode_segment, with_read at 1.
  rewrite Nat2Z.id.
  apply (encode_while_bytes source [] (length source) s); simpl; [done | lia].
Qed.

Lemma enc_bytes_app (l1 l2 : list Z) : forall s : encoder,
  enc_bytes (l1 ++ l2) s = do s' <- enc_bytes l1 s; enc_bytes l2 s'.
Proof.
  induction l1 as [|b l1 IH]; intros s; simpl; [done|].
  rewrite bind_assoc. destruct (enc_byte b s); simpl; auto.
Qed.

(** [encode] on buffers of the stated sizes is the fold over header, body
    and trailer in this order, closed by the last code byte. *)
Lemma encode_bytes (header body trailer destination : list Z) :
  Z.of_nat (length header) <= 65535 ->
  Z.of_nat (length body) <= 65535 ->
  Z.of_nat (length trailer) <= 65535 ->
  encode header (Z.of_nat (length header)) body (Z.of_nat (length body))
    trailer (Z.of_nat (length trailer)) destination =
  do s <- enc_bytes (header ++ body ++ trailer) (Encoder 1 0 1 destination);
  enc_finish s.
Proof.
  intros Hh Hb Ht. unfold encode.
  change (Enc.mk 0 1 0 1 destination) with (with_read 0 (Encoder 1 0 1 destination)).
  rewrite encode_segment_bytes, enc_bytes_app, !bind_assoc by done.
  destruct (enc_bytes header _) as [s1| | |]; cbn [bind]; try done.
  rewrite encode_segment_bytes, enc_bytes_app, !bind_assoc by done.
  destruct (enc_bytes body _) as [s2| | |]; cbn [bind]; try done.
  rewrite encode_segment_bytes, !bind_assoc by done.
  destruct (enc_bytes trailer _) as [s3| | |]; cbn [bind]; try done.
Qed.

(** ** The examples of the specification *)

Example encode_single_zero : encode [] 0 [0] 1 [] 0 [9; 9] = Ok (2, [1; 1]).
Proof. reflexivity. Qed.

Example decode_single_zero : decode [1; 1] 2 [9; 9] = Ok (1, [0; 9]).
Proof. reflexivity. Qed.

Example encode_three_segments :
  encode [1; 2] 2 [0; 3] 2 [4] 1 (replicate 6 0) = Ok (6, [3; 1; 2; 3; 3; 4]).
Proof. reflexivity. Qed.

Example decode_three_segments :
  decode [3; 1; 2; 3; 3; 4] 6 (replicate 6 9) = Ok (5, [1; 2; 0; 3; 4; 9]).
Proof. reflexivity. Qed.

(** A run of 254 non-zero bytes: the code byte 0xFF, the 254 bytes, and
    the code byte 1 that closes the code. *)
Example encode_254 :
  encode [] 0 (replicate 254 7) 254 [] 0 (replicate 256 0) =
  Ok (256, 255 :: replicate 254 7 ++ [1]).
Proof. vm_compute. reflexivity. Qed.

Example decode_254 :
  decode (255 :: replicate 254 7 ++ [1]) 256 (replicate 256 0) =
  Ok (254, replicate 254 7 ++ [0; 0]).
Proof. vm_compute. reflexivity. Qed.

(** The returned length for inputs without a zero byte, of the lengths the
    specification lists. *)
Example encode_lengths :
  map (fun n => match encode [] 0 (replicate n 1) (Z.of_nat n) [] 0
                        (replicate (n + 3) 0) with
                | Ok (encodedLen, _) =>
                    Some (encodedLen, getEncodedBufferSize 0 (Z.of_nat n) 0)
                | _ => None
                end)
      [0; 1; 253; 254; 255; 508]%nat =
  [Some (1, 1); Some (2, 2); Some (254, 254); Some (256, 256); Some (257, 257);
   Some (511, 511)].
Proof. vm_compute. reflexivity. Qed.

(** ** Segment concatenation and the empty input *)

(** C5.  Header, body and trailer of the stated sizes encode as their
    concatenation passed as the body with an empty header and trailer:
    [encode] gives the same outcome, that is the same returned length and
    the same destination bytes (and the same fault when the destination is
    too small), whatever the destination. *)
Theorem encode_segments_concat (header body trailer destination : list Z) :
  Z.of_nat (length (header ++ body ++ trailer)) <= 65535 ->
  encode header (Z.of_nat (length header)) body (Z.of_nat (length body))
    trailer (Z.of_nat (length trailer)) destination =
  encode [] 0 (header ++ body ++ trailer)
    (Z.of_nat (length (header ++ body ++ trailer))) [] 0 destination.
Proof.
  intros Hlen. pose proof Hlen as Hlen'. rewrite !length_app in Hlen'.
  rewrite encode_bytes by lia.
  pose proof (encode_bytes [] (header ++ body ++ trailer) [] destination) as Hcat.
  rewrite app_nil_l, app_nil_r in Hcat.
  symmetry. apply Hcat; simpl; lia.
Qed.

Lemma encode_segments_concat_witness :
  encode [1; 2] 2 [0; 3] 2 [4] 1 (replicate 6 0) =
  encode [] 0 [1; 2; 0; 3; 4] 5 [] 0 (replicate 6 0) /\
  encode [1; 2] 2 [0; 3] 2 [4] 1 (replicate 6 0) = Ok (6, [3; 1; 2; 3; 3; 4]).
Proof.
  split; [|reflexivity].
  apply (encode_segments_concat [1; 2] [0; 3] [4] (replicate 6 0)).
  simpl. lia.
Defined.

(** C8.  With the three sizes equal to zero [encode] returns 1 and writes
    1 at index 0 of the destination, whatever the source pointers and the
    rest of the destination; [decode] of the one byte 1 returns 0 and
    writes nothing. *)
Theorem encode_empty (header body trailer : list Z) (d0 : Z) (destination : list Z) :
  encode header 0 body 0 trailer 0 (d0 :: destination) = Ok (1, 1 :: destination) /\
  decode [1] 1 destination = Ok (0, destination).
Proof. split; reflexivity. Qed.

(** ** getEncodedBufferSize *)

(** C6.  [getEncodedBufferSize] is [total + total / 254 + 1] in 16-bit
    unsigned arithmetic, [total] being the 16-bit sum of the three sizes;
    when the exact value fits in 16 bits it is the exact value. *)
Theorem getEncodedBufferSize_formula (headerSize sourceSize trailerSize : Z) :
  is_uint16 headerSize -> is_uint16 sourceSize -> is_uint16 trailerSize ->
  let total := headerSize + sourceSize + trailerSize in
  getEncodedBufferSize headerSize sourceSize trailerSize =
    (total mod 65536 + (total mod 65536) / 254 + 1) mod 65536 /\
  (total + total / 254 + 1 <= 65535 ->
   getEncodedBufferSize headerSize sourceSize trailerSize = total + total / 254 + 1).
Proof.
  intros Hh Hs Ht total. unfold is_uint16 in *. split; [reflexivity|].
  intros Hfit. unfold getEncodedBufferSize. fold total.
  assert (0 <= total / 254) by (apply Z.div_pos; lia).
  rewrite (uint16_small total) by lia.
  apply uint16_small. lia.
Qed.

Lemma getEncodedBufferSize_formula_witness :
  getEncodedBufferSize 100 154 254 = 511 /\ getEncodedBufferSize 65535 65535 2 = 1.
Proof.
  destruct (getEncodedBufferSize_formula 100 154 254) as [_ Hexact];
    [unfold is_uint16; lia ..|].
  split; [apply Hexact; vm_compute; discriminate | reflexivity].
Defined.

(** ** The invariant of the encoder: size and non-zero bytes *)

Ltac zdiv := Z.div_mod_to_equations; lia.

Lemma store_length (d d' : list Z) (i v : Z) :
  store d i v = Ok d' -> length d' = length d.
Proof. intros [_ ->]%store_inv. apply length_insert. Qed.

Lemma store_lookup (d d' : list Z) (i v j : Z) :
  store d i v = Ok d' -> 0 <= i -> 0 <= j ->
  d' !! Z.to_nat j = if decide (j = i) then Some v else d !! Z.to_nat j.
Proof.
  intros [Hlt ->]%store_inv Hi Hj. destruct (decide (j = i)) as [->|Hne].
  - apply list_lookup_insert_eq. lia.
  - apply list_lookup_insert_ne. lia.
Qed.

Lemma enc_inv_bound (cap : Z) (nz : bool) (n W : Z) (s : encoder) :
  enc_inv cap nz n W s ->
  W <= n + n / 254 + 1 /\ (nz = true -> W = n + n / 254 + 1).
Proof.
  intros [Hc Hn Hf Hr Hx _ _ _ _]. split.
  - zdiv.
  - intros Hnz. specialize (Hx Hnz). zdiv.
Qed.

Lemma enc_byte_inv (cap : Z) (nz : bool) (n W b : Z) (s : encoder) :
  enc_inv cap nz n W s ->
  byteb b = true ->
  Z.min ((n + 1) + (n + 1) / 254 + 1) 65536 <= cap ->
  exists s' W', enc_byte b s = Ok s' /\ W < W' /\
    enc_inv cap (nz && negb (b =? 0)) (n + 1) W' s'.
Proof.
  intros Hinv Hb Hcap.
  destruct (enc_inv_bound _ _ _ _ _ Hinv) as [HW _].
  destruct Hinv as [Hc Hn Hf Hr Hx Hw Hci Hnzero Hlen].
  destruct s as [w ci c d]. cbn [enc_write enc_code_index enc_code enc_dest] in *.
  apply andb_prop in Hb as [Hb0%Z.leb_le Hb1%Z.leb_le].
  assert (HW1 : Z.min (W + 1) 65536 <= cap) by zdiv.
  assert (Hci_lt : 0 <= ci < W /\ ci < 65536) by (subst ci; zdiv).
  assert (Hw_lt : 0 <= w <= W /\ w < 65536) by (subst w; zdiv).
  assert (Hwci : w <> ci) by (subst w ci; zdiv).
  unfold enc_byte. destruct (Z.eqb_spec b 0) as [->|Hbnz].
  - (* a zero byte closes the run *)
    destruct (store d ci c) as [d1| | |] eqn:Hst;
      try (rewrite store_lt in Hst by lia; discriminate).
    exists (Encoder (uint16 (w + 1)) w 1 d1), (W + 1). split; [done|].
    split; [lia|]. rewrite andb_false_r.
    constructor; cbn [enc_write enc_code_index enc_code enc_dest];
      try lia; try done.
    + unfold uint16. subst w. zdiv.
    + subst w. f_equal. lia.
    + intros i Hi Hne. rewrite (store_lookup _ _ _ _ i Hst) by lia.
      destruct (decide (i = ci)) as [->|Hne2]; [exists c; split; [done|lia]|].
      apply Hnzero; [|done]. subst w. zdiv.
    + by rewrite (store_length _ _ _ _ Hst).
  - destruct (store d w b) as [d1| | |] eqn:Hst;
      try (rewrite store_lt in Hst by lia; discriminate).
    cbn [bind]. rewrite (uint8_small (c + 1)) by lia.
    pose proof (store_length _ _ _ _ Hst) as Hlen1.
    destruct (Z.eqb_spec (c + 1) 255) as [Hc255|Hc255].
    + (* the 254th byte of a run: the code byte 0xFF is written *)
      rewrite Hc255.
      destruct (store d1 ci 255) as [d2| | |] eqn:Hst2;
        try (rewrite store_lt in Hst2 by lia; discriminate).
      exists (Encoder (uint16 (uint16 (w + 1) + 1)) (uint16 (w + 1)) 1 d2), (W + 2).
      split; [done|]. split; [lia|].
      constructor; cbn [enc_write enc_code_index enc_code enc_dest];
        try lia.
      * intros [Hnz _]%andb_prop. specialize (Hx Hnz). lia.
      * unfold uint16. subst w. zdiv.
      * unfold uint16. subst w. zdiv.
      * intros i Hi Hne. rewrite (store_lookup _ _ _ _ i Hst2) by lia.
        destruct (decide (i = ci)) as [->|Hne2]; [exists 255; split; [done|lia]|].
        rewrite (store_lookup _ _ _ _ i Hst) by lia.
        destruct (decide (i = w)) as [->|Hne3]; [exists b; split; [done|lia]|].
        apply Hnzero; [|done]. unfold uint16 in Hne. subst w. zdiv.
      * by rewrite (store_length _ _ _ _ Hst2), Hlen1.
    + exists (Encoder (uint16 (w + 1)) ci (c + 1) d1), (W + 1).
      split; [done|]. split; [lia|].
      constructor; cbn [enc_write enc_code_index enc_code enc_dest];
        try lia.
      * intros [Hnz _]%andb_prop. specialize (Hx Hnz). lia.
      * unfold uint16. subst w. zdiv.
      * subst ci. f_equal. lia.
      * intros i Hi Hne. rewrite (store_lookup _ _ _ _ i Hst) by lia.
        destruct (decide (i = w)) as [->|Hne3]; [exists b; split; [done|lia]|].
        apply Hnzero; [|done]. subst w. zdiv.
Qed.

Lemma enc_bytes_inv (l : list Z) : forall (cap : Z) (nz : bool) (n W : Z) (s : encoder),
  enc_inv cap nz n W s ->
  bytes l ->
  Z.min ((n + Z.of_nat (length l)) + (n + Z.of_nat (length l)) / 254 + 1) 65536 <= cap ->
  exists s' W', enc_bytes l s = Ok s' /\
    enc_inv cap (nz && nonzerob l) (n + Z.of_nat (length l)) W' s'.
Proof.
  induction l as [|b l IH]; intros cap nz n W s Hinv Hl Hcap.
  - exists s, W. split; [done|]. simpl. by rewrite andb_true_r, Z.add_0_r.
  - unfold bytes in Hl. simpl in Hl. apply andb_prop in Hl as [Hb Hl].
    rewrite length_cons, Nat2Z.inj_succ in Hcap.
    pose proof (inv_n _ _ _ _ _ Hinv) as Hn.
    destruct (enc_byte_inv cap nz n W b s Hinv Hb) as (s1 & W1 & Hstep & _ & Hinv1);
      [zdiv|].
    destruct (IH cap _ (n + 1) W1 s1 Hinv1 Hl) as (s2 & W2 & Hrest & Hinv2);
      [replace (n + 1 + Z.of_nat (length l)) with (n + Z.succ (Z.of_nat (length l))) by lia;
       done|].
    exists s2, W2. split.
    + cbn [enc_bytes]. by rewrite Hstep.
    + cbn [nonzerob forallb length]. fold (nonzerob l).
      rewrite Nat2Z.inj_succ, andb_assoc.
      by replace (n + Z.succ (Z.of_nat (length l))) with (n + 1 + Z.of_nat (length l)) by lia.
Qed.

Lemma enc_inv_init (destination : list Z) :
  enc_inv (Z.of_nat (length destination)) true 0 1 (Encoder 1 0 1 destination).
Proof.
  constructor; cbn [enc_write enc_code_index enc_code enc_dest]; intros;
    done || lia.
Qed.

Lemma bytes_app (l1 l2 : list Z) : bytes (l1 ++ l2) <-> bytes l1 /\ bytes l2.
Proof. unfold bytes. rewrite forallb_app. apply andb_true_iff. Qed.

(** What [encode] does when the destination holds the exact bound
    [total + total / 254 + 1]: it returns [W mod 65536], where the length
    [W] of the code is at most the bound, and the bound itself when no
    byte of the input is zero; every byte it has written is non-zero. *)
Lemma encode_spec (header body trailer destination : list Z) :
  bytes header -> bytes body -> bytes trailer ->
  Z.of_nat (length header) <= 65535 ->
  Z.of_nat (length body) <= 65535 ->
  Z.of_nat (length trailer) <= 65535 ->
  let total := Z.of_nat (length (header ++ body ++ trailer)) in
  Z.min (total + total / 254 + 1) 65536 <= Z.of_nat (length destination) ->
  exists (W : Z) (destination' : list Z),
    encode header (Z.of_nat (length header)) body (Z.of_nat (length body))
      trailer (Z.of_nat (length trailer)) destination =
      Ok (W mod 65536, destination') /\
    1 <= W <= total + total / 254 + 1 /\
    (nonzerob (header ++ body ++ trailer) = true -> W = total + total / 254 + 1) /\
    length destination' = length destination /\
    forall i, 0 <= i < Z.min W 65536 ->
      exists v, destination' !! Z.to_nat i = Some v /\ 1 <= v <= 255.
Proof.
  intros Hh Hb Ht Hlh Hlb Hlt total Hcap.
  rewrite encode_bytes by done.
  destruct (enc_bytes_inv (header ++ body ++ trailer) _ true 0 1 _
              (enc_inv_init destination)) as (s & W & Hrun & Hinv).
  { by rewrite !bytes_app. }
  { by rewrite Z.add_0_l. }
  rewrite Z.add_0_l in Hinv. fold total in Hinv. cbn [andb] in Hinv.
  destruct (enc_inv_bound _ _ _ _ _ Hinv) as [HW HWx].
  destruct Hinv as [Hc Hn Hf Hr Hx Hw Hci Hnzero Hlen].
  destruct s as [w ci c d]. cbn [enc_write enc_code_index enc_code enc_dest] in *.
  assert (Hci_lt : 0 <= ci < W /\ ci < 65536) by (subst ci; zdiv).
  rewrite Hrun. cbn [bind]. unfold enc_finish.
  cbn [enc_write enc_code_index enc_code enc_dest].
  destruct (store d ci c) as [d1| | |] eqn:Hst;
    try (rewrite store_lt in Hst by lia; discriminate).
  exists W, d1. cbn [bind]. split; [by rewrite Hw|].
  split; [lia|]. split; [done|]. split.
  - rewrite (store_length _ _ _ _ Hst). lia.
  - intros i Hi. rewrite (store_lookup _ _ _ _ i Hst) by lia.
    destruct (decide (i = ci)) as [->|Hne]; [exists c; split; [done|lia]|].
    by apply Hnzero.
Qed.

Lemma getEncodedBufferSize_exact (headerSize sourceSize trailerSize : Z) :
  0 <= headerSize + sourceSize + trailerSize ->
  headerSize + sourceSize + trailerSize +
    (headerSize + sourceSize + trailerSize) / 254 + 1 <= 65535 ->
  getEncodedBufferSize headerSize sourceSize trailerSize =
  headerSize + sourceSize + trailerSize +
    (headerSize + sourceSize + trailerSize) / 254 + 1.
Proof.
  intros Hpos Hfit. unfold getEncodedBufferSize.
  assert (0 <= (headerSize + sourceSize + trailerSize) / 254) by (apply Z.div_pos; lia).
  rewrite (uint16_small (headerSize + sourceSize + trailerSize)) by lia.
  apply uint16_small. lia.
Qed.

(** C2.  Whatever the lengths of header, body and trailer, [encode] into a
    destination that holds [total + total / 254 + 1] bytes (65536 bytes
    are enough in any case) returns, and each of the first [encodedLen]
    bytes of the destination is then in the range 0x01..0xFF.  The
    statement covers the inputs whose code is longer than 65535 bytes, for
    which [write_index] wraps around. *)
Theorem encode_no_zero_byte (header body trailer destination : list Z) :
  bytes header -> bytes body -> bytes trailer ->
  Z.of_nat (length header) <= 65535 ->
  Z.of_nat (length body) <= 65535 ->
  Z.of_nat (length trailer) <= 65535 ->
  let total := Z.of_nat (length (header ++ body ++ trailer)) in
  Z.min (total + total / 254 + 1) 65536 <= Z.of_nat (length destination) ->
  exists (encodedLen : Z) (destination' : list Z),
    encode header (Z.of_nat (length header)) body (Z.of_nat (length body))
      trailer (Z.of_nat (length trailer)) destination =
      Ok (encodedLen, destination') /\
    forall i, 0 <= i < encodedLen ->
      exists v, destination' !! Z.to_nat i = Some v /\ 1 <= v <= 255.
Proof.
  intros Hh Hb Ht Hlh Hlb Hlt total Hcap.
  destruct (encode_spec header body trailer destination)
    as (W & d & Henc & HW & _ & _ & Hnz); try done.
  exists (W mod 65536), d. split; [done|].
  intros i Hi. apply Hnz. zdiv.
Qed.

Lemma encode_no_zero_byte_witness :
  exists (encodedLen : Z) (destination' : list Z),
    encode [1; 2] 2 [0; 3] 2 [4] 1 (replicate 6 0) = Ok (encodedLen, destination') /\
    forall i, 0 <= i < encodedLen ->
      exists v, destination' !! Z.to_nat i = Some v /\ 1 <= v <= 255.
Proof.
  apply (encode_no_zero_byte [1; 2] [0; 3] [4] (replicate 6 0));
    try reflexivity; simpl; lia.
Defined.

(** C3, as amended.  When [total + total / 254 + 1] fits in 16 bits,
    [encode] into a destination of [getEncodedBufferSize] bytes or more
    returns (with exactly [getEncodedBufferSize] bytes, a write at or
    above that bound would be a [WriteFault]), the returned length is at
    most [getEncodedBufferSize], and it is [getEncodedBufferSize] when no
    byte of the input is zero, whatever the total length (0, 1, 253, 254,
    255 and 508 among others). *)
Theorem encode_size_bound (header body trailer destination : list Z) :
  bytes header -> bytes body -> bytes trailer ->
  let total := Z.of_nat (length (header ++ body ++ trailer)) in
  let bound := getEncodedBufferSize (Z.of_nat (length header))
                 (Z.of_nat (length body)) (Z.of_nat (length trailer)) in
  total + total / 254 + 1 <= 65535 ->
  bound <= Z.of_nat (length destination) ->
  exists (encodedLen : Z) (destination' : list Z),
    encode header (Z.of_nat (length header)) body (Z.of_nat (length body))
      trailer (Z.of_nat (length trailer)) destination =
      Ok (encodedLen, destination') /\
    encodedLen <= bound /\
    (nonzerob (header ++ body ++ trailer) = true -> encodedLen = bound).
Proof.
  intros Hh Hb Ht total bound Hfit Hcap.
  assert (Htotal : total = Z.of_nat (length header) + Z.of_nat (length body) +
                           Z.of_nat (length trailer))
    by (unfold total; rewrite !length_app; lia).
  assert (Hdiv : 0 <= total / 254) by (apply Z.div_pos; lia).
  assert (Hbound : bound = total + total / 254 + 1).
  { unfold bound. rewrite Htotal.
    apply getEncodedBufferSize_exact; rewrite <- Htotal; lia. }
  destruct (encode_spec header body trailer destination)
    as (W & d & Henc & HW & Hexact & _ & _); try done; try (fold total; lia).
  fold total in HW, Hexact.
  exists (W mod 65536), d. split; [done|].
  rewrite Z.mod_small by lia. split; [lia|].
  intros Hnz. rewrite Hbound. by apply Hexact.
Qed.

Lemma encode_size_bound_witness :
  exists (encodedLen : Z) (destination' : list Z),
    encode (replicate 100 7) 100 (replicate 154 9) 154 [] 0 (replicate 256 0) =
      Ok (encodedLen, destination') /\
    encodedLen <= 256 /\
    (nonzerob (replicate 100 7 ++ replicate 154 9 ++ []) = true -> encodedLen = 256).
Proof.
  apply (encode_size_bound (replicate 100 7) (replicate 154 9) [] (replicate 256 0));
    try reflexivity.
  vm_compute. discriminate.
Defined.

(** C3 as stated fails on large inputs.  Header of 65535 bytes and body of
    one byte: the 16-bit sum of the sizes is 0 and [getEncodedBufferSize]
    is 1.  With a destination of that size [encode] writes at index 1;
    with a destination of 65536 bytes it returns 259. *)
Lemma encode_size_bound_counterexample :
  getEncodedBufferSize 65535 1 0 = 1 /\
  encode (replicate (Z.to_nat 65535) 1) 65535 [1] 1 [] 0 [0] = WriteFault 1 /\
  exists destination',
    encode (replicate (Z.to_nat 65535) 1) 65535 [1] 1 [] 0
      (replicate (Z.to_nat 65536) 0) = Ok (259, destination').
Proof.
  split; [reflexivity|]. split; [vm_compute; reflexivity|].
  destruct (encode_spec (replicate (Z.to_nat 65535) 1) [1] []
              (replicate (Z.to_nat 65536) 0))
    as (W & d & Henc & HW & Hexact & _ & _).
  1-3: vm_compute; reflexivity.
  1-3: rewrite ?length_replicate; simpl; lia.
  { rewrite !length_app, !length_replicate. vm_compute. discriminate. }
  exists d. rewrite !length_replicate in Henc. 
  change (Z.of_nat (length [1])) with 1 in Henc.
  change (Z.of_nat (length (@nil Z))) with 0 in Henc.
  rewrite Z2Nat.id in Henc by lia. rewrite Henc.
  rewrite Hexact by (vm_compute; reflexivity).
  rewrite !length_app, !length_replicate. reflexivity.
Qed.

(** ** Writing a run of bytes into a buffer *)

Lemma splice_nil (buffer : list Z) (w : nat) : splice buffer w [] = buffer.
Proof. unfold splice. simpl. rewrite Nat.add_0_r. apply take_drop. Qed.

Lemma length_splice (buffer : list Z) (w : nat) (l : list Z) :
  (w + length l <= length buffer)%nat -> length (splice buffer w l) = length buffer.
Proof.
  intros Hle. unfold splice. rewrite !length_app, length_take, length_drop. lia.
Qed.

Lemma splice_cons (buffer : list Z) (w : nat) (b : Z) (l : list Z) :
  (w < length buffer)%nat ->
  splice (<[w := b]> buffer) (S w) l = splice buffer w (b :: l).
Proof.
  intros Hlt. unfold splice.
  destruct (lookup_lt_is_Some_2 buffer w Hlt) as [x Hx].
  rewrite (take_S_r (<[w := b]> buffer) w b) by (by apply list_lookup_insert_eq).
  rewrite take_insert_ge by lia.
  rewrite drop_insert_lt by lia.
  rewrite <- app_assoc. simpl.
  by replace (w + S (length l))%nat with (S (w + length l)) by lia.
Qed.

Lemma splice_app (buffer : list Z) (w : nat) (l1 l2 : list Z) :
  (w + length l1 <= length buffer)%nat ->
  splice (splice buffer w l1) (w + length l1) l2 = splice buffer w (l1 ++ l2).
Proof.
  intros Hle. unfold splice.
  assert (Hpre : (w + length l1)%nat = length (take w buffer ++ l1))
    by (rewrite length_app, length_take; lia).
  rewrite (app_assoc (take w buffer) l1).
  rewrite (take_app_length' _ _ _ Hpre).
  rewrite (drop_app_add' _ _ _ (length l2) Hpre).
  rewrite drop_drop, length_app, <- !app_assoc.
  by replace (w + length l1 + length l2)%nat
    with (w + (length l1 + length l2))%nat by lia.
Qed.

Lemma store_splice (buffer : list Z) (w : Z) (l : list Z) (v : Z) :
  0 <= w ->
  w + Z.of_nat (length l) < Z.of_nat (length buffer) ->
  store (splice buffer (Z.to_nat w) l) (w + Z.of_nat (length l)) v =
  Ok (splice buffer (Z.to_nat w) (l ++ [v])).
Proof.
  intros Hw Hlt.
  rewrite store_lt by (rewrite length_splice; lia).
  f_equal. rewrite <- splice_app by lia.
  replace (Z.to_nat (w + Z.of_nat (length l))) with (Z.to_nat w + length l)%nat by lia.
  set (buffer' := splice buffer (Z.to_nat w) l).
  assert (Hlen : length buffer' = length buffer) by (apply length_splice; lia).
  rewrite <- (splice_cons buffer' _ v []) by lia.
  by rewrite splice_nil.
Qed.

Lemma take_splice (buffer : list Z) (w : nat) (l : list Z) :
  (w <= length buffer)%nat ->
  take (w + length l) (splice buffer w l) = take w buffer ++ l.
Proof.
  intros Hle. unfold splice. rewrite app_assoc.
  apply take_app_length'. rewrite length_app, length_take. lia.
Qed.

(** ** The loops of [decode] *)

(** The [for] loop copies [code - i] bytes (none when [code <= i]). *)
Lemma decode_for_spec (k : nat) : forall (fuel : nat) (source : list Z)
    (code i r w : Z) (destination : list Z),
  k = Z.to_nat (code - i) ->
  0 <= i -> code <= 255 ->
  0 <= r -> r + Z.of_nat k <= Z.of_nat (length source) -> r + Z.of_nat k <= 65535 ->
  0 <= w -> w + Z.of_nat k <= Z.of_nat (length destination) -> w + Z.of_nat k <= 65535 ->
  (k <= fuel)%nat ->
  decode_for fuel source code i (Dec.mk r w destination) =
  Ok (Dec.mk (r + Z.of_nat k) (w + Z.of_nat k)
        (splice destination (Z.to_nat w) (take k (drop (Z.to_nat r) source)))).
Proof.
  induction k as [|k IH];
    intros fuel source code i r w destination Hk Hi Hcode Hr Hrs Hr16 Hw Hwd Hw16 Hfuel.
  - assert (code <= i) by lia.
    destruct fuel; simpl; (destruct (Z.ltb_spec i code); [lia|]);
      by rewrite splice_nil, !Z.add_0_r.
  - destruct fuel as [|fuel]; [lia|].
    cbn [decode_for]. destruct (Z.ltb_spec i code) as [_|Hge]; [|lia].
    destruct (load_lt source r) as (b & Hload & Hb); [lia|].
    rewrite Hload. cbn [bind].
    rewrite store_lt by lia. cbn [bind].
    rewrite !uint16_small, uint8_small by lia.
    rewrite IH; try lia; [|rewrite length_insert; lia].
    f_equal. f_equal; try lia.
    rewrite (drop_S source b (Z.to_nat r) Hb). cbn [take].
    replace (Z.to_nat (w + 1)) with (S (Z.to_nat w)) by lia.
    replace (Z.to_nat (r + 1)) with (S (Z.to_nat r)) by lia.
    apply splice_cons. lia.
Qed.

Lemma bytes_lookup (l : list Z) (i : nat) (b : Z) :
  bytes l -> l !! i = Some b -> 0 <= b <= 255.
Proof.
  unfold bytes. rewrite forallb_forall. intros Hl Hb.
  apply list_elem_of_lookup_2, list_elem_of_In, Hl in Hb.
  unfold byteb in Hb. lia.
Qed.

(** The bytes a group writes: the [code - 1] bytes that follow the code
    byte, and a zero byte unless the code is 0xFF or the group ends the
    input. *)
Lemma decode_body_spec (source : list Z) (size r w code : Z) (destination : list Z) :
  0 <= code <= 255 ->
  size <= Z.of_nat (length source) ->
  size <= Z.of_nat (length destination) ->
  size <= 65535 ->
  0 <= w <= r -> r < size ->
  source !! Z.to_nat r = Some code ->
  let k := Z.to_nat (code - 1) in
  let r' := r + 1 + Z.of_nat k in
  let data := take k (drop (Z.to_nat (r + 1)) source) in
  let zero := if negb (code =? 255) && negb (r' =? size) then [0] else [] in
  decode_body source size (Dec.mk r w destination) =
  if (r + code >? size) && negb (code =? 1) then Ok (Return (0, destination))
  else Ok (Continue (Dec.mk r' (w + Z.of_nat (length (data ++ zero)))
                       (splice destination (Z.to_nat w) (data ++ zero)))).
Proof.
  intros Hc Hls Hld H16 Hw Hr Hcode k r' data zero.
  unfold decode_body, load. rewrite Hcode. cbn [bind].
  destruct ((r + code >? size) && negb (code =? 1)) eqn:Hbad; [done|].
  assert (Hfit : r + 1 + Z.of_nat k <= size).
  { apply andb_false_iff in Hbad as [Hle|Heq]; [lia|].
    apply negb_false_iff, Z.eqb_eq in Heq. lia. }
  rewrite uint16_small by lia.
  rewrite (decode_for_spec k) by lia. cbn [bind]. fold data. fold r'.
  assert (Hdata : length data = k).
  { unfold data. rewrite length_take, length_drop. lia. }
  unfold zero.
  destruct (negb (code =? 255) && negb (r' =? size)) eqn:Hz.
  - apply andb_prop in Hz as [_ Hne%negb_true_iff%Z.eqb_neq].
    rewrite <- Hdata at 1. rewrite store_splice by (unfold r' in *; lia).
    cbn [bind]. rewrite uint16_small by (unfold r' in *; lia).
    do 3 f_equal. rewrite length_app. simpl. lia.
  - rewrite app_nil_r. do 3 f_equal. lia.
Qed.

Lemma drop_splice (buffer : list Z) (w n : nat) (l : list Z) :
  (w + length l <= n)%nat -> (w + length l <= length buffer)%nat ->
  drop n (splice buffer w l) = drop n buffer.
Proof.
  intros Hn Hle. unfold splice.
  assert (Hpre : (w + length l)%nat = length (take w buffer ++ l))
    by (rewrite length_app, length_take; lia).
  rewrite (app_assoc (take w buffer) l).
  replace n with ((w + length l) + (n - (w + length l)))%nat at 1 by lia.
  rewrite (drop_app_add' _ _ _ _ Hpre), drop_drop. f_equal. lia.
Qed.

(** One iteration of the loop of [decode], in a state where
    [write_index <= read_index < size]: it returns 0, or it goes on with a
    larger [read_index], still at most [size]. *)
Lemma decode_body_cases (source : list Z) (size r w code : Z) (destination : list Z) :
  bytes source ->
  size <= Z.of_nat (length source) ->
  size <= Z.of_nat (length destination) ->
  size <= 65535 ->
  0 <= w <= r -> r < size ->
  source !! Z.to_nat r = Some code ->
  (r + code > size /\ code <> 1 /\
   decode_body source size (Dec.mk r w destination) = Ok (Return (0, destination)))
  \/
  (~ (r + code > size /\ code <> 1) /\
   exists r1 w1 d1,
     decode_body source size (Dec.mk r w destination) = Ok (Continue (Dec.mk r1 w1 d1)) /\
     r < r1 <= size /\ w <= w1 <= r1 /\
     length d1 = length destination /\
     drop (Z.to_nat size) d1 = drop (Z.to_nat size) destination /\
     (w1 = w <-> r + 1 = size /\ code <= 1)).
Proof.
  intros Hsrc Hls Hld H16 Hw Hr Hcode.
  pose proof (bytes_lookup _ _ _ Hsrc Hcode) as Hc.
  rewrite (decode_body_spec source size r w code destination) by done.
  destruct ((r + code >? size) && negb (code =? 1)) eqn:Hbad.
  - left. apply andb_prop in Hbad as [Hgt Hne%negb_true_iff%Z.eqb_neq].
    split; [lia|done].
  - right.
    assert (Hok : r + code <= size \/ code = 1).
    { apply andb_false_iff in Hbad as [Hle|Heq]; [lia|].
      apply negb_false_iff, Z.eqb_eq in Heq. lia. }
    split; [lia|].
    set (k := Z.to_nat (code - 1)).
    set (r1 := r + 1 + Z.of_nat k).
    set (data := take k (drop (Z.to_nat (r + 1)) source)).
    set (zero := if negb (code =? 255) && negb (r1 =? size) then [0] else []).
    assert (Hdata : length data = k).
    { unfold data. rewrite length_take, length_drop. lia. }
    assert (Hzero : length zero = 0%nat /\ (code = 255 \/ r1 = size) \/
                    length zero = 1%nat /\ code <> 255 /\ r1 <> size).
    { unfold zero. destruct (Z.eqb_spec code 255); destruct (Z.eqb_spec r1 size);
        simpl; lia. }
    assert (Hlen : length (data ++ zero) = (k + length zero)%nat)
      by (rewrite length_app; lia).
    eexists _, _, _. split; [reflexivity|]. rewrite Hlen.
    split; [lia|]. split; [lia|]. split; [apply length_splice; lia|].
    split; [apply drop_splice; lia|]. lia.
Qed.

Section decode_run.
Variables (source : list Z) (size : Z).
Hypothesis Hsrc : bytes source.
Hypothesis Hls : size <= Z.of_nat (length source).
Hypothesis H16 : size <= 65535.

Lemma decode_while_stop (fuel : nat) (w : Z) (destination : list Z) :
  0 <= w <= size ->
  exists c, decode_while fuel source size (Dec.mk size w destination) = Ok c /\
            decode_while_post source size size w destination c.
Proof.
  intros Hw. exists (Continue (Dec.mk size w destination)). split.
  - destruct fuel; simpl; by rewrite Z.ltb_irrefl.
  - simpl. repeat split; try lia.
    intros st Hrtc [Hlt _].
    apply rtc_inv in Hrtc as [<-|(y & [Hstep _] & _)]; simpl in *; lia.
Qed.

Lemma decode_while_spec (fuel : nat) : forall (r w : Z) (destination : list Z),
  size <= Z.of_nat (length destination) ->
  0 <= w <= r -> r <= size -> size - r <= Z.of_nat fuel ->
  exists c, decode_while fuel source size (Dec.mk r w destination) = Ok c /\
            decode_while_post source size r w destination c.
Proof.
  induction fuel as [|fuel IH]; intros r w destination Hld Hw Hr Hfuel.
  - assert (r = size) as -> by lia. by apply decode_while_stop.
  - destruct (decide (r = size)) as [->|Hne]; [by apply decode_while_stop|].
    assert (Hlt : r < size) by lia.
    destruct (lookup_lt_is_Some_2 source (Z.to_nat r)) as [code Hcode]; [lia|].
    cbn [decode_while Dec.read_index].
    destruct (Z.ltb_spec r size) as [_|Hge]; [|lia].
    destruct (decode_body_cases source size r w code destination)
      as [(Hgt & Hne1 & Hbody)|(Hgood & r1 & w1 & d1 & Hbody & Hr1 & Hw1 & Hlen1 & Hdrop1 & Hsame)];
      try done.
    + (* the code byte is malformed: return 0 *)
      rewrite Hbody. cbn [bind]. exists (Return (0, destination)).
      split; [done|]. simpl. repeat split.
      exists (Dec.mk r w destination). split; [apply rtc_refl|].
      split; [done|]. exists code. unfold load. simpl. rewrite Hcode.
      repeat split; done.
    + rewrite Hbody. cbn [bind].
      assert (Hstep : decode_step source size (Dec.mk r w destination) (Dec.mk r1 w1 d1))
        by (by split).
      destruct (IH r1 w1 d1) as (c & Hrun & Hpost); try lia.
      exists c. split; [done|].
      destruct c as [st'|[n d]]; simpl in Hpost |- *.
      * destruct Hpost as (Hr' & Hw' & Hlen' & Hdrop' & Hnone & Hiff).
        repeat split; try lia; try congruence.
        -- intros st Hrtc Hmal.
           apply rtc_inv in Hrtc as [<-|(y & [_ Hy] & Hrtc)].
           ++ destruct Hmal as (_ & code' & Hload & Hbad).
              unfold load in Hload. simpl in Hload. rewrite Hcode in Hload.
              injection Hload as <-. tauto.
           ++ rewrite Hbody in Hy. injection Hy as <-. by apply (Hnone st).
        -- intros Heq. right. assert (w1 = w) as Hw1eq by lia.
           apply Hsame in Hw1eq. split; [lia|]. exists code. split; [done|lia].
      * destruct Hpost as (Hn & Hlen' & Hdrop' & st & Hrtc & Hmal).
        repeat split; try congruence.
        exists st. split; [|done]. by eapply rtc_l.
Qed.
End decode_run.

Lemma decode_while_more_fuel (source : list Z) (size : Z) (fuel : nat) :
  forall (fuel' : nat) (st : Dec.state) (c : control Dec.state (Z * list Z)),
  (fuel <= fuel')%nat ->
  decode_while fuel source size st = Ok c ->
  decode_while fuel' source size st = Ok c.
Proof.
  induction fuel as [|fuel IH]; intros fuel' st c Hle Hrun.
  - simpl in Hrun. destruct (Dec.read_index st <? size) eqn:Hlt; [done|].
    destruct fuel'; simpl; by rewrite Hlt.
  - destruct fuel' as [|fuel']; [lia|].
    cbn [decode_while] in *. destruct (Dec.read_index st <? size); [|done].
    destruct (decode_body source size st) as [[st1|r]| | |]; cbn [bind] in *; try done.
    apply IH; [lia|done].
Qed.

(** The states in which [decode] evaluates the condition of its loop. *)
Lemma decode_reachable (source : list Z) (size : Z) (destination : list Z)
    (st : Dec.state) :
  bytes source ->
  size <= Z.of_nat (length source) ->
  size <= Z.of_nat (length destination) ->
  0 <= size <= 65535 ->
  rtc (decode_step source size) (Dec.mk 0 0 destination) st ->
  0 <= Dec.write_index st <= Dec.read_index st /\ Dec.read_index st <= size /\
  length (Dec.destination st) = length destination.
Proof.
  intros Hsrc Hls Hld H16 Hrtc. revert st Hrtc.
  apply rtc_ind_r; [simpl; lia|].
  intros y z Hy [Hlt Hbody] IH.
  destruct y as [r w d]. simpl in IH, Hlt.
  destruct (lookup_lt_is_Some_2 source (Z.to_nat r)) as [code Hcode]; [lia|].
  destruct (decode_body_cases source size r w code d)
    as [(_ & _ & Hret)|(_ & r1 & w1 & d1 & Hcont & Hr1 & Hw1 & Hlen1 & _)];
    try done; try lia.
  - rewrite Hret in Hbody. discriminate.
  - rewrite Hcont in Hbody. injection Hbody as <-. simpl. lia.
Qed.

(** [decode] on a source of at least [size] bytes and a destination of at
    least [size] bytes. *)
Lemma decode_spec (fuel : nat) (source : list Z) (size : Z) (destination : list Z) :
  bytes source ->
  size <= Z.of_nat (length source) ->
  size <= Z.of_nat (length destination) ->
  0 <= size <= 65535 ->
  (Z.to_nat size <= fuel)%nat ->
  exists c,
    decode_while fuel source size (Dec.mk 0 0 destination) = Ok c /\
    decode_while_post source size 0 0 destination c /\
    decode_fuel fuel source size destination =
      Ok (match c with
          | Continue st => (Dec.write_index st, Dec.destination st)
          | Return r => r
          end).
Proof.
  intros Hsrc Hls Hld H16 Hfuel.
  destruct (decode_while_spec source size Hsrc Hls (proj2 H16) fuel 0 0 destination)
    as (c & Hrun & Hpost); try lia.
  exists c. split; [done|]. split; [done|].
  unfold decode_fuel. rewrite Hrun. by destruct c.
Qed.

(** C7.  [decode] of [size] bytes into a destination of at least [size]
    bytes returns; the returned length is at most [size], and the bytes of
    the destination from index [size] on are as before, so every write is
    below [size] (with a destination of exactly [size] bytes, a write at
    [size] or above would be a [WriteFault]). *)
Theorem decode_never_expands (source : list Z) (size : Z) (destination : list Z) :
  bytes source ->
  0 <= size <= 65535 ->
  size <= Z.of_nat (length source) ->
  size <= Z.of_nat (length destination) ->
  exists (decodedLen : Z) (destination' : list Z),
    decode source size destination = Ok (decodedLen, destination') /\
    0 <= decodedLen <= size /\
    length destination' = length destination /\
    drop (Z.to_nat size) destination' = drop (Z.to_nat size) destination.
Proof.
  intros Hsrc H16 Hls Hld.
  destruct (decode_spec (Z.to_nat size) source size destination)
    as (c & _ & Hpost & Hdec); try done.
  unfold decode. rewrite Hdec.
  destruct c as [[r w d]|[n d]]; simpl in Hpost; eexists _, _; (split; [reflexivity|]).
  - simpl. destruct Hpost as (_ & Hw & Hlen & Hdrop & _). repeat split; done || lia.
  - destruct Hpost as (-> & Hlen & Hdrop & _). repeat split; done || lia.
Qed.

Lemma decode_never_expands_witness :
  exists (decodedLen : Z) (destination' : list Z),
    decode [3; 1; 2; 3; 3; 4] 6 (replicate 6 9) = Ok (decodedLen, destination') /\
    0 <= decodedLen <= 6 /\
    length destination' = length (replicate 6 9) /\
    drop (Z.to_nat 6) destination' = drop (Z.to_nat 6) (replicate 6 9).
Proof.
  apply (decode_never_expands [3; 1; 2; 3; 3; 4] 6 (replicate 6 9));
    try reflexivity; simpl; lia.
Defined.

(** *** Reads of [decode], whatever the destination *)

Lemma decode_for_reads (k : nat) : forall (fuel : nat) (source : list Z)
    (code i r w : Z) (destination : list Z),
  k = Z.to_nat (code - i) ->
  0 <= i -> code <= 255 ->
  0 <= r -> r + Z.of_nat k <= Z.of_nat (length source) -> r + Z.of_nat k <= 65535 ->
  (k <= fuel)%nat ->
  reads_in_bounds (fun st => Dec.read_index st = r + Z.of_nat k)
    (decode_for fuel source code i (Dec.mk r w destination)).
Proof.
  induction k as [|k IH];
    intros fuel source code i r w destination Hk Hi Hcode Hr Hrs Hr16 Hfuel.
  - assert (code <= i) by lia.
    destruct fuel; simpl; (destruct (Z.ltb_spec i code); [lia|]); simpl; lia.
  - destruct fuel as [|fuel]; [lia|].
    cbn [decode_for]. destruct (Z.ltb_spec i code) as [_|Hge]; [|lia].
    destruct (load_lt source r) as (b & Hload & Hb); [lia|].
    rewrite Hload. cbn [bind].
    destruct (store destination w b) as [d1| | |] eqn:Hst; cbn [bind];
      try done; try (unfold store in Hst; by destruct (_ <? _)).
    rewrite uint16_small, uint8_small by lia.
    replace (r + Z.of_nat (S k)) with (r + 1 + Z.of_nat k) by lia.
    apply IH; lia.
Qed.

Lemma store_reads_in_bounds {A : Type} (P : A -> Prop) (d : list Z) (i v : Z)
    (k : list Z -> outcome A) :
  (forall d', reads_in_bounds P (k d')) ->
  reads_in_bounds P (bind (store d i v) k).
Proof.
  intros Hk. unfold store. destruct (i <? Z.of_nat (length d)); simpl; [apply Hk|done].
Qed.

Lemma decode_body_reads (source : list Z) (size r w : Z) (destination : list Z) :
  bytes source ->
  size <= Z.of_nat (length source) ->
  size <= 65535 ->
  0 <= r < size ->
  reads_in_bounds
    (fun c => match c with
              | Continue st => r < Dec.read_index st <= size
              | Return _ => True
              end)
    (decode_body source size (Dec.mk r w destination)).
Proof.
  intros Hsrc Hls H16 Hr.
  destruct (load_lt source r) as (code & Hload & Hcode); [lia|].
  pose proof (bytes_lookup _ _ _ Hsrc Hcode) as Hc.
  unfold decode_body. rewrite Hload. cbn [bind].
  destruct ((r + code >? size) && negb (code =? 1)) eqn:Hbad; [done|].
  assert (Hfit : r + 1 + Z.of_nat (Z.to_nat (code - 1)) <= size).
  { apply andb_false_iff in Hbad as [Hle|Heq]; [lia|].
    apply negb_false_iff, Z.eqb_eq in Heq. lia. }
  rewrite uint16_small by lia.
  pose proof (decode_for_reads (Z.to_nat (code - 1)) (Z.to_nat code) source code 1
                (r + 1) w destination) as Hfor.
  destruct (decode_for _ source code 1 _) as [[r1 w1 d1]| | |]; cbn [bind];
    try (apply Hfor; lia).
  assert (Hr1 : r1 = r + 1 + Z.of_nat (Z.to_nat (code - 1))) by (apply Hfor; lia).
  destruct (negb (code =? 255) && negb (r1 =? size)).
  - apply store_reads_in_bounds. intros d'. simpl. lia.
  - simpl. lia.
Qed.

Lemma decode_while_reads (source : list Z) (size : Z) (fuel : nat) :
  forall (r w : Z) (destination : list Z),
  bytes source ->
  size <= Z.of_nat (length source) ->
  size <= 65535 ->
  0 <= r <= size -> size - r <= Z.of_nat fuel ->
  reads_in_bounds (fun _ => True)
    (decode_while fuel source size (Dec.mk r w destination)).
Proof.
  induction fuel as [|fuel IH]; intros r w destination Hsrc Hls H16 Hr Hfuel.
  - simpl. destruct (Z.ltb_spec r size); [lia|done].
  - cbn [decode_while Dec.read_index]. destruct (Z.ltb_spec r size) as [Hlt|_]; [|done].
    pose proof (decode_body_reads source size r w destination Hsrc Hls H16) as Hbody.
    destruct (decode_body source size _) as [[[r1 w1 d1]|ret]| | |]; cbn [bind];
      try (apply Hbody; lia).
    apply IH; try done; simpl in Hbody; lia.
Qed.

Lemma decode_reads (fuel : nat) (source : list Z) (size : Z) (destination : list Z) :
  bytes source ->
  size <= Z.of_nat (length source) ->
  0 <= size <= 65535 ->
  (Z.to_nat size <= fuel)%nat ->
  reads_in_bounds (fun _ => True) (decode_fuel fuel source size destination).
Proof.
  intros Hsrc Hls H16 Hfuel. unfold decode_fuel.
  pose proof (decode_while_reads source size fuel 0 0 destination Hsrc Hls) as Hrun.
  destruct (decode_while fuel source size _) as [[st|ret]| | |]; cbn [bind];
    try done; apply Hrun; lia.
Qed.

(** C9 as stated fails: no source of [size] bytes makes [decode] read at
    index [size] or above, whatever the destination.  (The source is
    exactly [size] bytes long, so such a read would be a [ReadFault].) *)
Lemma decode_validation_gap_counterexample :
  ~ exists (source : list Z) (size : Z) (destination : list Z) (i : Z),
      bytes source /\ Z.of_nat (length source) = size /\ size <= 65535 /\
      decode source size destination = ReadFault i.
Proof.
  intros (source & size & destination & i & Hsrc & Hlen & H16 & Hfault).
  pose proof (decode_reads (Z.to_nat size) source size destination Hsrc) as Hreads.
  unfold decode in Hfault. rewrite Hfault in Hreads. apply Hreads; lia.
Qed.

(** C9, as amended.  The test of line 144 guards every byte that the copy
    loop reads: on a source of exactly [size] bytes [decode] never reads
    at index [size] or above, whatever the destination, and it returns
    when the destination holds [size] bytes or more.  The exemption of the
    code byte 1 lets nothing through, since a group of code 1 copies no
    byte. *)
Theorem decode_reads_below_size (source : list Z) (size : Z) (destination : list Z) :
  bytes source ->
  Z.of_nat (length source) = size ->
  size <= 65535 ->
  (forall i, decode source size destination <> ReadFault i) /\
  (size <= Z.of_nat (length destination) ->
   exists (decodedLen : Z) (destination' : list Z),
     decode source size destination = Ok (decodedLen, destination')).
Proof.
  intros Hsrc Hlen H16. split.
  - intros i Hfault.
    pose proof (decode_reads (Z.to_nat size) source size destination Hsrc) as Hreads.
    unfold decode in Hfault. rewrite Hfault in Hreads. apply Hreads; lia.
  - intros Hld.
    destruct (decode_spec (Z.to_nat size) source size destination)
      as (c & _ & _ & Hdec); try done; try lia.
    unfold decode. rewrite Hdec. destruct c as [st|[n d]]; eauto.
Qed.

Lemma decode_reads_below_size_witness :
  (forall i, decode [5; 4; 2; 1; 1] 5 [0; 0] <> ReadFault i) /\
  (forall i, decode [5; 1; 2] 3 (replicate 3 0) <> ReadFault i) /\
  exists (decodedLen : Z) (destination' : list Z),
    decode [5; 1; 2] 3 (replicate 3 0) = Ok (decodedLen, destination').
Proof.
  split.
  - apply (decode_reads_below_size [5; 4; 2; 1; 1] 5 [0; 0]); try reflexivity; lia.
  - destruct (decode_reads_below_size [5; 1; 2] 3 (replicate 3 0)) as [Hread Hret];
      try reflexivity; try lia.
    split; [done|]. apply Hret. simpl. lia.
Defined.

Lemma decode_step_reads (source : list Z) (size : Z) (st st' : Dec.state) :
  bytes source ->
  size <= Z.of_nat (length source) ->
  size <= 65535 ->
  0 <= Dec.read_index st ->
  decode_step source size st st' ->
  Dec.read_index st + 1 <= Dec.read_index st' <= size.
Proof.
  intros Hsrc Hls H16 Hr [Hlt Hbody]. destruct st as [r w d].
  cbn [Dec.read_index] in *.
  pose proof (decode_body_reads source size r w d Hsrc Hls H16) as Hreads.
  rewrite Hbody in Hreads. simpl in Hreads. lia.
Qed.

(** C10.  [decode] terminates, whatever the bytes of the source (a code
    byte 0 included) and whatever the destination: with [size] iterations
    or more allowed the loop never runs out of them; each iteration that
    ends at the bottom of the body leaves [read_index] larger than it
    found it, and at most [size]; and when the destination holds [size]
    bytes or more, [decode] returns. *)
Theorem decode_terminates (source : list Z) (size : Z) (destination : list Z) :
  bytes source ->
  0 <= size <= 65535 ->
  size <= Z.of_nat (length source) ->
  (forall fuel : nat, (Z.to_nat size <= fuel)%nat ->
     decode_fuel fuel source size destination <> OutOfFuel) /\
  (forall st st' : Dec.state,
     rtc (decode_step source size) (Dec.mk 0 0 destination) st ->
     decode_step source size st st' ->
     Dec.read_index st + 1 <= Dec.read_index st' <= size) /\
  (size <= Z.of_nat (length destination) ->
   forall fuel : nat, (Z.to_nat size <= fuel)%nat ->
     exists (decodedLen : Z) (destination' : list Z),
       decode_fuel fuel source size destination = Ok (decodedLen, destination') /\
       decode source size destination = Ok (decodedLen, destination')).
Proof.
  intros Hsrc H16 Hls. split; [|split].
  - intros fuel Hfuel Hout.
    pose proof (decode_reads fuel source size destination Hsrc Hls H16 Hfuel) as Hreads.
    by rewrite Hout in Hreads.
  - intros st st' Hrtc Hstep.
    apply decode_step_reads with (source := source); try done; try lia.
    clear Hstep. revert st Hrtc. apply rtc_ind_r; [simpl; lia|].
    intros y z _ Hstep Hy.
    pose proof (decode_step_reads source size y z Hsrc Hls (proj2 H16) Hy Hstep). lia.
  - intros Hld fuel Hfuel.
    destruct (decode_spec (Z.to_nat size) source size destination)
      as (c & Hrun & _ & Hdec); try done.
    unfold decode. rewrite Hdec. unfold decode_fuel.
    rewrite (decode_while_more_fuel _ _ _ fuel _ _ Hfuel Hrun). cbn [bind].
    destruct c as [st|[n d]]; eauto.
Qed.

Lemma decode_terminates_witness :
  (forall fuel : nat, (Z.to_nat 4 <= fuel)%nat ->
     decode_fuel fuel [0; 2; 7; 0] 4 (replicate 4 9) <> OutOfFuel) /\
  (forall st st' : Dec.state,
     rtc (decode_step [0; 2; 7; 0] 4) (Dec.mk 0 0 (replicate 4 9)) st ->
     decode_step [0; 2; 7; 0] 4 st st' ->
     Dec.read_index st + 1 <= Dec.read_index st' <= 4) /\
  (forall fuel : nat, (Z.to_nat 4 <= fuel)%nat ->
     exists (decodedLen : Z) (destination' : list Z),
       decode_fuel fuel [0; 2; 7; 0] 4 (replicate 4 9) = Ok (decodedLen, destination') /\
       decode [0; 2; 7; 0] 4 (replicate 4 9) = Ok (decodedLen, destination')).
Proof.
  destruct (decode_terminates [0; 2; 7; 0] 4 (replicate 4 9)) as (Hfuel & Hstep & Hret);
    try reflexivity; try (simpl; lia).
  split; [done|]. split; [done|]. apply Hret. simpl. lia.
Defined.

(** C4 as stated fails: [decode] of the one byte 1 returns 0, the length
    of the empty message, and meets no malformed code byte. *)
Lemma decode_zero_counterexample :
  decode [1] 1 [9] = Ok (0, [9]) /\
  ~ exists st, rtc (decode_step [1] 1) (Dec.mk 0 0 [9]) st /\ malformed_at [1] 1 st.
Proof.
  split; [reflexivity|].
  intros (st & Hrtc & Hmal).
  destruct (decode_spec 1 [1] 1 [9]) as (c & Hrun & Hpost & _);
    try reflexivity; try (simpl; lia).
  vm_compute in Hrun. injection Hrun as <-.
  destruct Hpost as (_ & _ & _ & _ & Hnone & _). by apply (Hnone st).
Qed.

(** C4, as amended.  [decode] returns 0 exactly when the loop meets a code
    byte [c] at a read position [r] with [r + c > size] and [c <> 1], or
    when it decodes nothing: [size] is 0, or [size] is 1 and the code byte
    is 0 or 1.  A code byte 1 never makes the body return, and
    [decode([5, 1, 2], 3)] returns 0. *)
Theorem decode_zero_iff (source : list Z) (size : Z) (destination : list Z) :
  bytes source ->
  0 <= size <= 65535 ->
  size <= Z.of_nat (length source) ->
  size <= Z.of_nat (length destination) ->
  (exists (decodedLen : Z) (destination' : list Z),
     decode source size destination = Ok (decodedLen, destination') /\
     (decodedLen = 0 <->
      (exists st, rtc (decode_step source size) (Dec.mk 0 0 destination) st /\
                  malformed_at source size st) \/
      size = 0 \/
      (size = 1 /\ exists code, source !! 0%nat = Some code /\ code <= 1))) /\
  (forall (st : Dec.state) (r : Z * list Z),
     load source (Dec.read_index st) = Ok 1 ->
     decode_body source size st <> Ok (Return r)) /\
  decode [5; 1; 2] 3 destination = Ok (0, destination).
Proof.
  intros Hsrc H16 Hls Hld. split; [|split; [|reflexivity]].
  - destruct (decode_spec (Z.to_nat size) source size destination)
      as (c & _ & Hpost & Hdec); try done.
    unfold decode. rewrite Hdec.
    destruct c as [[r w d]|[n d]]; simpl in Hpost; eexists _, _; (split; [reflexivity|]).
    + destruct Hpost as (_ & Hw & _ & _ & Hnone & Hiff). simpl in Hw, Hiff.
      rewrite Hiff. change (Z.to_nat 0) with 0%nat. split.
      * intros [<-|[<- Hcode]]; auto.
      * intros [(st & Hrtc & Hmal)|[<-|[-> Hcode]]]; auto.
        by destruct (Hnone st).
    + destruct Hpost as (-> & _ & _ & Hmal). split; auto.
  - intros [r w d] ret Hload. unfold decode_body.
    cbn [Dec.read_index] in Hload. rewrite Hload. cbn [bind].
    rewrite Z.eqb_refl, andb_false_r. simpl.
    destruct (negb (uint16 (r + 1) =? size)); [|done].
    by destruct (store d w 0).
Qed.

Lemma decode_zero_iff_witness :
  (exists (decodedLen : Z) (destination' : list Z),
     decode [2; 7; 9] 3 [0; 0; 0] = Ok (decodedLen, destination') /\
     (decodedLen = 0 <->
      (exists st, rtc (decode_step [2; 7; 9] 3) (Dec.mk 0 0 [0; 0; 0]) st /\
                  malformed_at [2; 7; 9] 3 st) \/
      3 = 0 \/
      (3 = 1 /\ exists code, [2; 7; 9] !! 0%nat = Some code /\ code <= 1))) /\
  (forall (st : Dec.state) (r : Z * list Z),
     load [2; 7; 9] (Dec.read_index st) = Ok 1 ->
     decode_body [2; 7; 9] 3 st <> Ok (Return r)) /\
  decode [5; 1; 2] 3 [0; 0; 0] = Ok (0, [0; 0; 0]).
Proof.
  apply (decode_zero_iff [2; 7; 9] 3 [0; 0; 0]); try reflexivity; simpl; lia.
Defined.

(** ** The code that [encode] writes *)

Lemma groups_snoc (gs : list (list Z)) (data : list Z) :
  groups (gs ++ [data]) = groups gs ++ group data.
Proof. unfold groups. rewrite map_app, concat_app. simpl. by rewrite app_nil_r. Qed.

Lemma inner_bytes_snoc (gs : list (list Z)) (data : list Z) :
  inner_bytes (gs ++ [data]) = inner_bytes gs ++ group_bytes false data.
Proof. unfold inner_bytes. rewrite map_app, concat_app. simpl. by rewrite app_nil_r. Qed.

Lemma groups_bytes_snoc (gs : list (list Z)) (data : list Z) :
  groups_bytes (gs ++ [data]) = inner_bytes gs ++ data.
Proof.
  induction gs as [|g gs IH].
  - simpl. unfold group_bytes. by rewrite orb_true_r, !app_nil_r.
  - change (inner_bytes (g :: gs)) with (group_bytes false g ++ inner_bytes gs).
    rewrite <- app_assoc, <- IH. simpl. by destruct (gs ++ [data]) eqn:E; [destruct gs|].
Qed.

Lemma length_group (data : list Z) : length (group data) = S (length data).
Proof. done. Qed.

Lemma store_middle (pre post : list Z) (x v i : Z) :
  i = Z.of_nat (length pre) ->
  store (pre ++ x :: post) i v = Ok (pre ++ v :: post).
Proof.
  intros ->. rewrite store_lt by (rewrite length_app; simpl; lia).
  rewrite Nat2Z.id. f_equal.
  rewrite insert_app_r_alt by lia. by rewrite Nat.sub_diag.
Qed.

Ltac len_norm H := repeat first [rewrite length_app in H | progress simpl in H].
Ltac app_norm := repeat first [rewrite <- app_assoc | progress simpl].

Lemma enc_rep_step (input : list Z) (done : list (list Z)) (cur : list Z)
    (s s' : encoder) (b : Z) :
  enc_rep input done cur s ->
  enc_byte b s = Ok s' ->
  enc_write s <= 65535 ->
  enc_write s < enc_write s' ->
  enc_write s' <= Z.of_nat (length (enc_dest s)) ->
  exists done' cur', enc_rep (input ++ [b]) done' cur' s'.
Proof.
  intros [Hin Hdone Hcur Hc Hci Hw (x & rest & Hd)] Hstep H16 Hlt Hcap.
  destruct s as [w ci c d]. cbn [enc_write enc_code_index enc_code enc_dest] in *.
  unfold enc_byte in Hstep. destruct (Z.eqb_spec b 0) as [->|Hb].
  - (* a zero byte: the current group is finished *)
    apply bind_inv in Hstep as (d1 & Hst & Heq). injection Heq as <-.
    cbn [enc_write] in *. unfold uint16 in *.
    assert (Hw1 : (w + 1) mod 65536 = w + 1) by zdiv. rewrite Hw1 in *.
    rewrite Hd, (store_middle (groups done)) in Hst by done. injection Hst as <-.
    destruct rest as [|x' rest];
      [rewrite Hd in Hcap; len_norm Hcap; lia|].
    exists (done ++ [cur]), []. constructor;
      cbn [enc_write enc_code_index enc_code enc_dest].
    + rewrite inner_bytes_snoc, app_nil_r, <- Hin. unfold group_bytes.
      destruct (Z.eqb_spec (Z.of_nat (length cur)) 254); [lia|].
      simpl. by rewrite app_assoc.
    + apply Forall_app. split; [done|]. apply Forall_singleton. lia.
    + simpl. lia.
    + simpl. lia.
    + rewrite groups_snoc, length_app, length_group. lia.
    + rewrite groups_snoc, length_app, length_group. simpl. lia.
    + exists x', rest. rewrite groups_snoc. unfold group. rewrite Hc.
      by app_norm.
  - apply bind_inv in Hstep as (d1 & Hst & Hstep).
    rewrite (uint8_small (c + 1)) in Hstep by lia.
    pose proof (store_inv _ _ _ _ Hst) as [Hwlt _].
    destruct rest as [|y rest];
      [rewrite Hd in Hwlt; len_norm Hwlt; lia|].
    assert (Hd' : d = (groups done ++ x :: cur) ++ y :: rest)
      by (rewrite Hd; by app_norm).
    rewrite Hd', store_middle in Hst
      by (rewrite length_app; simpl; lia).
    injection Hst as <-.
    destruct (Z.eqb_spec (c + 1) 255) as [Hc255|Hc255].
    + (* the 254th byte of the group: the group is finished with code 0xFF *)
      apply bind_inv in Hstep as (d2 & Hst2 & Heq). injection Heq as <-.
      cbn [enc_write] in *. unfold uint16 in *.
      assert (Hw1 : (w + 1) mod 65536 = w + 1) by zdiv. rewrite Hw1 in *.
      assert (Hw2 : (w + 1 + 1) mod 65536 = w + 2) by zdiv. rewrite Hw2 in *.
      replace ((groups done ++ x :: cur) ++ b :: rest)
        with (groups done ++ x :: (cur ++ b :: rest)) in Hst2 by (by app_norm).
      rewrite (store_middle (groups done)) in Hst2 by done. injection Hst2 as <-.
      destruct rest as [|x' rest];
        [rewrite Hd' in Hcap; len_norm Hcap; lia|].
      exists (done ++ [cur ++ [b]]), []. constructor;
        cbn [enc_write enc_code_index enc_code enc_dest].
      * rewrite inner_bytes_snoc, app_nil_r, <- Hin. unfold group_bytes.
        rewrite length_app. simpl.
        destruct (Z.eqb_spec (Z.of_nat (length cur + 1)) 254); [|lia].
        simpl. by rewrite app_nil_r, app_assoc.
      * apply Forall_app. split; [done|]. apply Forall_singleton.
        rewrite length_app. simpl. lia.
      * simpl. lia.
      * simpl. lia.
      * rewrite groups_snoc, length_app, length_group, length_app. simpl. lia.
      * rewrite groups_snoc, length_app, length_group, length_app. simpl. lia.
      * exists x', rest. rewrite groups_snoc. unfold group.
        rewrite length_app. simpl.
        replace (1 + Z.of_nat (length cur + 1)) with (c + 1) by lia.
        by app_norm.
    + injection Hstep as <-. cbn [enc_write] in *. unfold uint16 in *.
      assert (Hw1 : (w + 1) mod 65536 = w + 1) by zdiv. rewrite Hw1 in *.
      exists done, (cur ++ [b]). constructor;
        cbn [enc_write enc_code_index enc_code enc_dest];
        rewrite ?length_app; simpl; try lia; try done.
      * by rewrite <- Hin, app_assoc.
      * exists x, rest. by app_norm.
Qed.

Lemma enc_rep_run (l : list Z) : forall (input : list Z) (done : list (list Z))
    (cur : list Z) (s : encoder) (cap : Z) (nz : bool) (n W : Z),
  enc_rep input done cur s ->
  enc_inv cap nz n W s ->
  bytes l ->
  (n + Z.of_nat (length l)) + (n + Z.of_nat (length l)) / 254 + 1 <= cap ->
  (n + Z.of_nat (length l)) + (n + Z.of_nat (length l)) / 254 + 1 <= 65535 ->
  exists s' done' cur',
    enc_bytes l s = Ok s' /\ enc_rep (input ++ l) done' cur' s'.
Proof.
  induction l as [|b l IH]; intros input done cur s cap nz n W Hrep Hinv Hl Hcap H16.
  - exists s, done, cur. rewrite app_nil_r. by split.
  - unfold bytes in Hl. simpl in Hl. apply andb_prop in Hl as [Hb Hl].
    rewrite length_cons, Nat2Z.inj_succ in Hcap, H16.
    pose proof (inv_n _ _ _ _ _ Hinv) as Hn.
    destruct (enc_byte_inv cap nz n W b s Hinv Hb) as (s1 & W1 & Hstep & HW1 & Hinv1);
      [zdiv|].
    destruct (enc_inv_bound _ _ _ _ _ Hinv1) as [Hbound1 _].
    assert (HW16 : 1 <= W /\ W1 <= 65535 /\ W1 <= cap).
    { pose proof (inv_flushes _ _ _ _ _ Hinv). zdiv. }
    destruct (enc_rep_step input done cur s s1 b Hrep Hstep) as (done1 & cur1 & Hrep1).
    { rewrite (inv_write _ _ _ _ _ Hinv). zdiv. }
    { rewrite (inv_write _ _ _ _ _ Hinv), (inv_write _ _ _ _ _ Hinv1).
      rewrite !Z.mod_small by lia. lia. }
    { rewrite (inv_write _ _ _ _ _ Hinv1), (inv_length _ _ _ _ _ Hinv).
      rewrite Z.mod_small by lia. lia. }
    destruct (IH (input ++ [b]) done1 cur1 s1 cap _ (n + 1) W1 Hrep1 Hinv1 Hl)
      as (s2 & done2 & cur2 & Hrest & Hrep2).
    { by replace (n + 1 + Z.of_nat (length l)) with (n + Z.succ (Z.of_nat (length l))) by lia. }
    { by replace (n + 1 + Z.of_nat (length l)) with (n + Z.succ (Z.of_nat (length l))) by lia. }
    exists s2, done2, cur2. split.
    + cbn [enc_bytes]. by rewrite Hstep.
    + by rewrite <- app_assoc in Hrep2.
Qed.

Lemma enc_rep_init (x : Z) (destination : list Z) :
  enc_rep [] [] [] (Encoder 1 0 1 (x :: destination)).
Proof.
  constructor; cbn [enc_write enc_code_index enc_code enc_dest];
    [done | by apply Forall_nil | simpl; lia | done | done | done |].
  by exists x, destination.
Qed.

(** When the bound [total + total / 254 + 1] fits in 16 bits and in the
    destination, [encode] writes the groups of its input at the start of
    the destination, and returns their length. *)
Lemma encode_groups (header body trailer destination : list Z) :
  bytes header -> bytes body -> bytes trailer ->
  let total := Z.of_nat (length (header ++ body ++ trailer)) in
  total + total / 254 + 1 <= Z.of_nat (length destination) ->
  total + total / 254 + 1 <= 65535 ->
  exists (gs : list (list Z)) (rest : list Z),
    encode header (Z.of_nat (length header)) body (Z.of_nat (length body))
      trailer (Z.of_nat (length trailer)) destination =
      Ok (Z.of_nat (length (groups gs)), groups gs ++ rest) /\
    groups_bytes gs = header ++ body ++ trailer /\
    Forall (fun data => (length data <= 254)%nat) gs /\
    length (groups gs ++ rest) = length destination.
Proof.
  intros Hh Hb Ht total Hcap H16.
  assert (Hdiv : 0 <= total / 254) by (apply Z.div_pos; lia).
  assert (Htotal : total = Z.of_nat (length header) + Z.of_nat (length body) +
                           Z.of_nat (length trailer))
    by (unfold total; rewrite !length_app; lia).
  rewrite encode_bytes by lia.
  destruct destination as [|x destination]; [simpl in Hcap; lia|].
  destruct (enc_rep_run (header ++ body ++ trailer) [] [] []
              (Encoder 1 0 1 (x :: destination)) _ true 0 1
              (enc_rep_init x destination) (enc_inv_init (x :: destination)))
    as (s & done & cur & Hrun & Hrep).
  { by rewrite !bytes_app. }
  { by rewrite Z.add_0_l. }
  { by rewrite Z.add_0_l. }
  destruct (enc_bytes_inv (header ++ body ++ trailer) _ true 0 1 _
              (enc_inv_init (x :: destination))) as (s' & W & Hrun' & Hinv).
  { by rewrite !bytes_app. }
  { rewrite Z.add_0_l. fold total. lia. }
  rewrite Hrun in Hrun'. injection Hrun' as <-.
  pose proof (inv_length _ _ _ _ _ Hinv) as Hlen.
  rewrite Hrun. cbn [bind]. unfold enc_finish.
  destruct Hrep as [Hin Hdone Hcur Hc Hci Hw (y & rest & Hd)].
  rewrite Hd, Hci, Hw, (store_middle (groups done)) by done. cbn [bind].
  exists (done ++ [cur]), rest. rewrite groups_snoc. split; [|split; [|split]].
  - unfold group. rewrite Hc, length_app. simpl. f_equal. f_equal; [lia|by app_norm].
  - rewrite groups_bytes_snoc. by rewrite app_nil_l in Hin.
  - apply Forall_app. split; [done|]. apply Forall_singleton. lia.
  - rewrite Hd in Hlen. unfold group. apply Nat2Z.inj. rewrite <- Hlen.
    f_equal. rewrite !length_app. simpl. rewrite !length_app. simpl. lia.
Qed.

(** ** [decode] on the groups of a code *)

Lemma length_groups_cons (data : list Z) (gs : list (list Z)) :
  length (groups (data :: gs)) = S (length data + length (groups gs)).
Proof. unfold groups. simpl. by rewrite length_app. Qed.

Lemma decode_groups (gs : list (list Z)) : forall (pre junk source : list Z)
    (size : Z) (fuel : nat) (w : Z) (destination : list Z),
  source = pre ++ groups gs ++ junk ->
  size = Z.of_nat (length pre) + Z.of_nat (length (groups gs)) ->
  Forall (fun data => (length data <= 254)%nat) gs ->
  size <= 65535 ->
  size <= Z.of_nat (length destination) ->
  0 <= w <= Z.of_nat (length pre) ->
  (length gs <= fuel)%nat ->
  decode_while fuel source size (Dec.mk (Z.of_nat (length pre)) w destination) =
  Ok (Continue (Dec.mk size (w + Z.of_nat (length (groups_bytes gs)))
                  (splice destination (Z.to_nat w) (groups_bytes gs)))).
Proof.
  induction gs as [|data gs IH];
    intros pre junk source size fuel w destination Hsource Hsize Hgs H16 Hld Hw Hfuel.
  - simpl in Hsize. rewrite Z.add_0_r in Hsize. subst size.
    destruct fuel; simpl; rewrite Z.ltb_irrefl, splice_nil, Z.add_0_r; done.
  - destruct fuel as [|fuel]; [simpl in Hfuel; lia|].
    apply Forall_cons in Hgs as [Hdata Hgs].
    rewrite length_groups_cons in Hsize.
    set (code := 1 + Z.of_nat (length data)).
    assert (Hsrc : source = pre ++ code :: data ++ groups gs ++ junk)
      by (rewrite Hsource; unfold groups, group; by app_norm).
    assert (Hcode : source !! Z.to_nat (Z.of_nat (length pre)) = Some code)
      by (rewrite Nat2Z.id, Hsrc; apply list_lookup_middle; done).
    assert (Hlen : size <= Z.of_nat (length source)).
    { rewrite Hsrc, !length_app. simpl. rewrite !length_app. lia. }
    cbn [decode_while Dec.read_index].
    destruct (Z.ltb_spec (Z.of_nat (length pre)) size) as [_|Hge]; [|lia].
    rewrite (decode_body_spec source size _ w code destination)
      by (done || (unfold code; lia)).
    destruct (Z.gtb_spec (Z.of_nat (length pre) + code) size) as [Hgt|_];
      [unfold code in Hgt; lia|].
    cbn [andb bind].
    replace (Z.to_nat (code - 1)) with (length data) by (unfold code; lia).
    assert (Hcopy : take (length data) (drop (Z.to_nat (Z.of_nat (length pre) + 1)) source)
                    = data).
    { replace (Z.to_nat (Z.of_nat (length pre) + 1)) with (length (pre ++ [code]))
        by (rewrite length_app; simpl; lia).
      rewrite Hsrc.
      replace (pre ++ code :: data ++ groups gs ++ junk)
        with ((pre ++ [code]) ++ data ++ groups gs ++ junk) by (by app_norm).
      rewrite drop_app_length. by rewrite take_app_length. }
    rewrite Hcopy.
    set (zero := if negb (code =? 255) &&
                    negb (Z.of_nat (length pre) + 1 + Z.of_nat (length data) =? size)
                 then [0] else []).
    assert (Hbytes : data ++ zero =
                     group_bytes (match gs with [] => true | _ => false end) data).
    { unfold group_bytes, zero, code. f_equal.
      destruct (Z.eqb_spec (1 + Z.of_nat (length data)) 255);
        destruct (Z.eqb_spec (Z.of_nat (length data)) 254); try lia; simpl; [done|].
      destruct gs as [|data' gs].
      - simpl in Hsize. destruct (Z.eqb_spec (Z.of_nat (length pre) + 1 +
                                  Z.of_nat (length data)) size); [done|lia].
      - rewrite length_groups_cons in Hsize.
        destruct (Z.eqb_spec (Z.of_nat (length pre) + 1 + Z.of_nat (length data)) size);
          [lia|done]. }
    rewrite Hbytes.
    set (out := group_bytes (match gs with [] => true | _ => false end) data) in *.
    assert (Hout : (length out <= length data + 1)%nat).
    { rewrite <- Hbytes, length_app. unfold zero.
      destruct (negb _ && negb _); simpl; lia. }
    replace (Z.of_nat (length pre) + 1 + Z.of_nat (length data))
      with (Z.of_nat (length (pre ++ group data)))
      by (rewrite length_app, length_group; lia).
    rewrite (IH (pre ++ group data) junk source size fuel); try done.
    + f_equal. f_equal. cbn [groups_bytes]. fold out. f_equal.
      * rewrite length_app. lia.
      * replace (Z.to_nat (w + Z.of_nat (length out))) with (Z.to_nat w + length out)%nat
          by lia.
        apply splice_app. lia.
    + rewrite Hsource. unfold groups. simpl. by app_norm.
    + rewrite length_app, length_group. lia.
    + rewrite length_splice; lia.
    + rewrite length_app, length_group. lia.
    + simpl in Hfuel. lia.
Qed.

Lemma length_groups_ge (gs : list (list Z)) : (length gs <= length (groups gs))%nat.
Proof.
  induction gs as [|data gs IH]; [done|].
  rewrite length_groups_cons. simpl. lia.
Qed.

(** ** Round trip *)

(** C1 as stated fails on long inputs.  A body of 65278 bytes, none of
    them zero, is at most 65535 bytes long, but its code is 65536 bytes
    long: [getEncodedBufferSize] is 0, [encode] writes outside a
    destination of that size, and with a destination of 65536 bytes it
    returns the length 0, for which [decode] returns 0 and writes
    nothing. *)
Lemma encode_decode_roundtrip_counterexample :
  Z.of_nat (length (replicate (Z.to_nat 65278) 1)) <= 65535 /\
  getEncodedBufferSize 0 65278 0 = 0 /\
  encode [] 0 (replicate (Z.to_nat 65278) 1) 65278 [] 0 [] = WriteFault 1 /\
  exists encoded,
    encode [] 0 (replicate (Z.to_nat 65278) 1) 65278 [] 0
      (replicate (Z.to_nat 65536) 0) = Ok (0, encoded) /\
    forall decoded, decode encoded 0 decoded = Ok (0, decoded).
Proof.
  split; [rewrite length_replicate; lia|].
  split; [reflexivity|]. split; [vm_compute; reflexivity|].
  destruct (encode_spec [] (replicate (Z.to_nat 65278) 1) []
              (replicate (Z.to_nat 65536) 0))
    as (W & d & Henc & HW & Hexact & _ & _).
  1-3: vm_compute; reflexivity.
  1-3: rewrite ?length_replicate; simpl; lia.
  { rewrite !length_app, !length_replicate. vm_compute. discriminate. }
  exists d. split; [|reflexivity].
  rewrite !length_replicate in Henc.
  change (Z.of_nat (length (@nil Z))) with 0 in Henc.
  rewrite Z2Nat.id in Henc by lia. rewrite Henc.
  rewrite Hexact by (vm_compute; reflexivity).
  rewrite !length_app, !length_replicate. reflexivity.
Qed.

(** C1, as amended.  For header, body and trailer whose bound
    [total + total / 254 + 1] fits in 16 bits (a total of at most 65277
    bytes), [encode] into a destination of at least [getEncodedBufferSize]
    bytes returns the length of the code, and [decode] of that many bytes
    of the destination, into a buffer at least as long as the code,
    returns the total length and writes header, body and trailer in this
    order at the start of the buffer. *)
Theorem encode_decode_roundtrip (header body trailer destination decoded : list Z) :
  bytes header -> bytes body -> bytes trailer ->
  let message := header ++ body ++ trailer in
  let total := Z.of_nat (length message) in
  total + total / 254 + 1 <= 65535 ->
  getEncodedBufferSize (Z.of_nat (length header)) (Z.of_nat (length body))
    (Z.of_nat (length trailer)) <= Z.of_nat (length destination) ->
  exists (encodedLen : Z) (encoded : list Z),
    encode header (Z.of_nat (length header)) body (Z.of_nat (length body))
      trailer (Z.of_nat (length trailer)) destination = Ok (encodedLen, encoded) /\
    (encodedLen <= Z.of_nat (length decoded) ->
     exists decoded',
       decode encoded encodedLen decoded = Ok (total, decoded') /\
       take (length message) decoded' = message).
Proof.
  intros Hh Hb Ht message total Hfit Hcap.
  assert (Htotal : total = Z.of_nat (length header) + Z.of_nat (length body) +
                           Z.of_nat (length trailer))
    by (unfold total, message; rewrite !length_app; lia).
  assert (Hdiv : 0 <= total / 254) by (apply Z.div_pos; lia).
  rewrite getEncodedBufferSize_exact in Hcap by (rewrite <- Htotal; lia).
  rewrite <- Htotal in Hcap.
  destruct (encode_groups header body trailer destination)
    as (gs & rest & Henc & Hbytes & Hgs & _); try done.
  destruct (encode_spec header body trailer destination)
    as (W & d & Henc' & _); try done; try (fold message; fold total; lia).
  rewrite Henc in Henc'. injection Henc' as Hlen _.
  exists (Z.of_nat (length (groups gs))), (groups gs ++ rest). split; [done|].
  intros Hdecoded. exists (splice decoded 0 message). split.
  - unfold decode, decode_fuel.
    rewrite (decode_groups gs [] rest (groups gs ++ rest) _ _ 0 decoded);
      try done; try (simpl; lia).
    + cbn [bind Dec.write_index Dec.destination]. rewrite Hbytes. done.
    + zdiv.
    + pose proof (length_groups_ge gs). lia.
  - fold message in Hbytes.
    pose proof (take_splice decoded 0 message) as Htake. simpl in Htake.
    apply Htake. lia.
Qed.

Lemma encode_decode_roundtrip_witness :
  exists (encodedLen : Z) (encoded decoded' : list Z),
    encode [1; 2] 2 [0; 3] 2 [4] 1 (replicate 6 0) = Ok (encodedLen, encoded) /\
    decode encoded encodedLen (replicate 6 0) = Ok (5, decoded') /\
    take 5 decoded' = [1; 2; 0; 3; 4].
Proof.
  destruct (encode_decode_roundtrip [1; 2] [0; 3] [4] (replicate 6 0) (replicate 6 0))
    as (encodedLen & encoded & Henc & Hdec);
    try reflexivity; try (vm_compute; discriminate).
  vm_compute in Henc. injection Henc as <- <-.
  destruct Hdec as (decoded' & Hdec & Htake); [simpl; lia|].
  exists 6, [3; 1; 2; 3; 3; 4], decoded'. split; [reflexivity|]. by split.
Defined.

(** * Further properties of the code *)

(** ** The range of [getEncodedBufferSize] *)

(** X1.  [getEncodedBufferSize] is the exact bound
    [total + total / 254 + 1] if and only if the total of the three sizes
    is at most 65277; for a larger total the 16-bit arithmetic wraps and
    the returned size is smaller than the total itself. *)
Theorem getEncodedBufferSize_range (headerSize sourceSize trailerSize : Z) :
  is_uint16 headerSize -> is_uint16 sourceSize -> is_uint16 trailerSize ->
  let total := headerSize + sourceSize + trailerSize in
  (getEncodedBufferSize headerSize sourceSize trailerSize = total + total / 254 + 1
   <-> total <= 65277) /\
  (65277 < total -> getEncodedBufferSize headerSize sourceSize trailerSize < total).
Proof.
  intros Hh Hs Ht total. unfold is_uint16 in *.
  assert (Hrange : 0 <= getEncodedBufferSize headerSize sourceSize trailerSize < 65536)
    by (unfold getEncodedBufferSize, uint16; zdiv).
  split; [split|].
  - intros Heq. rewrite Heq in Hrange. zdiv.
  - intros Hle. apply getEncodedBufferSize_exact; fold total; zdiv.
  - intros Hgt. destruct (Z_lt_le_dec total 65536) as [Hlt|Hge]; [|lia].
    unfold getEncodedBufferSize. fold total.
    rewrite (uint16_small total) by lia. unfold uint16. zdiv.
Qed.

Lemma getEncodedBufferSize_range_witness :
  (getEncodedBufferSize 65000 200 77 = 65277 + 65277 / 254 + 1 <-> 65277 <= 65277) /\
  getEncodedBufferSize 65000 200 78 < 65278.
Proof.
  destruct (getEncodedBufferSize_range 65000 200 77) as [Hiff _];
    [unfold is_uint16; lia ..|].
  destruct (getEncodedBufferSize_range 65000 200 78) as [_ Hlt];
    [unfold is_uint16; lia ..|].
  split; [exact Hiff|]. apply Hlt. lia.
Defined.

(** ** The overhead of [encode] *)

(** X2.  The code is at least one byte and at most [1 + total / 254] bytes
    longer than the input, and exactly one byte longer when the input is
    shorter than 254 bytes (the overhead of the class comment, lines
    13-15). *)
Theorem encode_overhead (header body trailer destination : list Z) :
  bytes header -> bytes body -> bytes trailer ->
  let total := Z.of_nat (length (header ++ body ++ trailer)) in
  total + total / 254 + 1 <= 65535 ->
  total + total / 254 + 1 <= Z.of_nat (length destination) ->
  exists (encodedLen : Z) (destination' : list Z),
    encode header (Z.of_nat (length header)) body (Z.of_nat (length body))
      trailer (Z.of_nat (length trailer)) destination =
      Ok (encodedLen, destination') /\
    total + 1 <= encodedLen <= total + total / 254 + 1 /\
    (total < 254 -> encodedLen = total + 1).
Proof.
  intros Hh Hb Ht total H16 Hcap.
  assert (Htotal : total = Z.of_nat (length header) + Z.of_nat (length body) +
                           Z.of_nat (length trailer))
    by (unfold total; rewrite !length_app; lia).
  assert (Hdiv : 0 <= total / 254) by (apply Z.div_pos; lia).
  rewrite encode_bytes by lia.
  destruct (enc_bytes_inv (header ++ body ++ trailer) _ true 0 1 _
              (enc_inv_init destination)) as (s & W & Hrun & Hinv).
  { by rewrite !bytes_app. }
  { rewrite Z.add_0_l. fold total. lia. }
  rewrite Z.add_0_l in Hinv. fold total in Hinv.
  destruct (enc_inv_bound _ _ _ _ _ Hinv) as [HW _].
  destruct Hinv as [Hc Hn Hf Hr Hx Hw Hci Hnzero Hlen].
  destruct s as [w ci c d]. cbn [enc_write enc_code_index enc_code enc_dest] in *.
  rewrite Hrun. cbn [bind]. unfold enc_finish.
  cbn [enc_write enc_code_index enc_code enc_dest].
  rewrite store_lt by (subst ci; zdiv). cbn [bind].
  eexists _, _. split; [reflexivity|].
  rewrite Hw, Z.mod_small by lia. split; [lia|].
  intros Hsmall. zdiv.
Qed.

Lemma encode_overhead_witness :
  exists (encodedLen : Z) (destination' : list Z),
    encode [1; 2] 2 [0; 3] 2 [4] 1 (replicate 6 0) = Ok (encodedLen, destination') /\
    5 + 1 <= encodedLen <= 5 + 5 / 254 + 1 /\
    (5 < 254 -> encodedLen = 5 + 1).
Proof.
  apply (encode_overhead [1; 2] [0; 3] [4] (replicate 6 0));
    try reflexivity; vm_compute; discriminate.
Defined.

(** ** The extent of what [decode] writes *)

Lemma decode_while_extent (source : list Z) (size : Z) (fuel : nat) :
  forall (r w : Z) (d : list Z) (st' : Dec.state),
  bytes source ->
  size <= Z.of_nat (length source) ->
  size <= Z.of_nat (length d) ->
  size <= 65535 ->
  0 <= w <= r -> r <= size ->
  decode_while fuel source size (Dec.mk r w d) = Ok (Continue st') ->
  (r = size -> st' = Dec.mk r w d) /\
  (r < size -> Dec.write_index st' <= size - 1) /\
  w <= Dec.write_index st' /\
  drop (Z.to_nat (Dec.write_index st')) (Dec.destination st') =
  drop (Z.to_nat (Dec.write_index st')) d.
Proof.
  induction fuel as [|fuel IH]; intros r w d st' Hsrc Hls Hld H16 Hw Hr Hrun.
  - simpl in Hrun. destruct (Z.ltb_spec r size); [done|].
    injection Hrun as <-. simpl. repeat split; done || lia.
  - cbn [decode_while Dec.read_index] in Hrun.
    destruct (Z.ltb_spec r size) as [Hlt|Hge];
      [|injection Hrun as <-; simpl; repeat split; done || lia].
    destruct (lookup_lt_is_Some_2 source (Z.to_nat r)) as [code Hcode]; [lia|].
    pose proof (bytes_lookup _ _ _ Hsrc Hcode) as Hc.
    rewrite (decode_body_spec source size r w code d) in Hrun by done.
    destruct ((r + code >? size) && negb (code =? 1)) eqn:Hbad; [done|].
    assert (Hok : r + code <= size \/ code = 1).
    { apply andb_false_iff in Hbad as [Hle|Heq]; [lia|].
      apply negb_false_iff, Z.eqb_eq in Heq. lia. }
    cbn [bind] in Hrun.
    set (k := Z.to_nat (code - 1)) in *.
    set (r1 := r + 1 + Z.of_nat k) in *.
    set (data := take k (drop (Z.to_nat (r + 1)) source)) in *.
    set (zero := if negb (code =? 255) && negb (r1 =? size) then [0] else []) in *.
    assert (Hdata : length data = k).
    { unfold data. rewrite length_take, length_drop. lia. }
    assert (Hzero : length zero = 0%nat /\ (code = 255 \/ r1 = size) \/
                    length zero = 1%nat /\ code <> 255 /\ r1 <> size).
    { unfold zero. destruct (Z.eqb_spec code 255); destruct (Z.eqb_spec r1 size);
        simpl; lia. }
    assert (Hlen : length (data ++ zero) = (k + length zero)%nat)
      by (rewrite length_app; lia).
    rewrite Hlen in Hrun.
    apply IH in Hrun as (Hstop & Hless & Hmono & Hdrop); try done; try lia;
      [|rewrite length_splice; lia].
    split; [lia|]. split; [|split; [lia|]].
    + intros _. destruct (decide (r1 = size)) as [Hend|Hmore]; [|lia].
      rewrite (Hstop Hend). simpl. lia.
    + rewrite Hdrop. apply drop_splice; lia.
Qed.

(** X3.  [decode] of a non-empty input returns less than [size]: a code
    is at least one byte longer than what it stands for. *)
Theorem decode_shrinks (source : list Z) (size : Z) (destination : list Z) :
  bytes source ->
  1 <= size <= 65535 ->
  size <= Z.of_nat (length source) ->
  size <= Z.of_nat (length destination) ->
  exists (decodedLen : Z) (destination' : list Z),
    decode source size destination = Ok (decodedLen, destination') /\
    0 <= decodedLen <= size - 1.
Proof.
  intros Hsrc H16 Hls Hld.
  destruct (decode_spec (Z.to_nat size) source size destination)
    as (c & Hrun & Hpost & Hdec); try done; try lia.
  unfold decode. rewrite Hdec.
  destruct c as [st|[n d]]; eexists _, _; (split; [reflexivity|]).
  - apply decode_while_extent in Hrun as (_ & Hless & Hmono & _); try done; lia.
  - destruct Hpost as (-> & _). lia.
Qed.

Lemma decode_shrinks_witness :
  exists (decodedLen : Z) (destination' : list Z),
    decode [3; 1; 2; 3; 3; 4] 6 (replicate 6 9) = Ok (decodedLen, destination') /\
    0 <= decodedLen <= 6 - 1.
Proof.
  apply (decode_shrinks [3; 1; 2; 3; 3; 4] 6 (replicate 6 9));
    try reflexivity; simpl; lia.
Defined.

(** X4.  When [decode] returns a length other than 0, the bytes of the
    destination from that length on are as they were before the call. *)
Theorem decode_frame (source : list Z) (size : Z) (destination : list Z) :
  bytes source ->
  0 <= size <= 65535 ->
  size <= Z.of_nat (length source) ->
  size <= Z.of_nat (length destination) ->
  exists (decodedLen : Z) (destination' : list Z),
    decode source size destination = Ok (decodedLen, destination') /\
    (decodedLen <> 0 ->
     drop (Z.to_nat decodedLen) destination' = drop (Z.to_nat decodedLen) destination).
Proof.
  intros Hsrc H16 Hls Hld.
  destruct (decode_spec (Z.to_nat size) source size destination)
    as (c & Hrun & Hpost & Hdec); try done; try lia.
  unfold decode. rewrite Hdec.
  destruct c as [st|[n d]]; eexists _, _; (split; [reflexivity|]).
  - intros _. apply decode_while_extent in Hrun as (_ & _ & _ & Hdrop); try done; lia.
  - destruct Hpost as (-> & _). done.
Qed.

Lemma decode_frame_witness :
  exists (decodedLen : Z) (destination' : list Z),
    decode [2; 7; 1] 3 [9; 9; 9] = Ok (decodedLen, destination') /\
    (decodedLen <> 0 ->
     drop (Z.to_nat decodedLen) destination' = drop (Z.to_nat decodedLen) [9; 9; 9]).
Proof.
  apply (decode_frame [2; 7; 1] 3 [9; 9; 9]); try reflexivity; simpl; lia.
Defined.

(** ** What [encode] and [decode] read *)

Lemma load_take (buffer : list Z) (n : nat) (i : Z) :
  (Z.to_nat i < n)%nat -> load (take n buffer) i = load buffer i.
Proof. intros Hlt. unfold load. by rewrite lookup_take_lt. Qed.

Lemma encode_body_take (source : list Z) (size : Z) (st : Enc.state) :
  0 <= Enc.read_index st < size ->
  encode_body (take (Z.to_nat size) source) st = encode_body source st.
Proof.
  intros Hr. destruct st as [r w ci c d]. cbn [Enc.read_index] in Hr.
  unfold encode_body. by rewrite load_take by lia.
Qed.

Lemma encode_body_read (source : list Z) (st st' : Enc.state) :
  encode_body source st = Ok st' ->
  Enc.read_index st' = uint16 (Enc.read_index st + 1).
Proof.
  destruct st as [r w ci c d]. unfold encode_body. intros Hbody.
  apply bind_inv in Hbody as (b & _ & Hbody).
  destruct (b =? 0).
  - apply bind_inv in Hbody as (d1 & _ & Heq). by injection Heq as <-.
  - apply bind_inv in Hbody as (b' & _ & Hbody).
    apply bind_inv in Hbody as (d1 & _ & Hbody).
    destruct (uint8 (c + 1) =? 255).
    + apply bind_inv in Hbody as (d2 & _ & Heq). by injection Heq as <-.
    + by injection Hbody as <-.
Qed.

Lemma encode_while_take (source : list Z) (size : Z) (fuel : nat) :
  forall st : Enc.state,
  0 <= Enc.read_index st ->
  encode_while fuel (take (Z.to_nat size) source) size st =
  encode_while fuel source size st.
Proof.
  induction fuel as [|fuel IH]; intros st Hr; [done|].
  cbn [encode_while]. destruct (Z.ltb_spec (Enc.read_index st) size) as [Hlt|_]; [|done].
  rewrite encode_body_take by lia.
  destruct (encode_body source st) as [st1| | |] eqn:Hbody; cbn [bind]; try done.
  apply IH. rewrite (encode_body_read _ _ _ Hbody). unfold uint16. zdiv.
Qed.

Lemma encode_segment_take (source : list Z) (size : Z) (st : Enc.state) :
  encode_segment (take (Z.to_nat size) source) size st = encode_segment source size st.
Proof.
  destruct st as [r w ci c d]. unfold encode_segment. by apply encode_while_take.
Qed.

Lemma encode_take (sourceHeader : list Z) (sourceHeaderSize : Z)
    (sourceBody : list Z) (sourceBodySize : Z)
    (sourceTrailer : list Z) (sourceTrailerSize : Z) (destination : list Z) :
  encode sourceHeader sourceHeaderSize sourceBody sourceBodySize
    sourceTrailer sourceTrailerSize destination =
  encode (take (Z.to_nat sourceHeaderSize) sourceHeader) sourceHeaderSize
    (take (Z.to_nat sourceBodySize) sourceBody) sourceBodySize
    (take (Z.to_nat sourceTrailerSize) sourceTrailer) sourceTrailerSize destination.
Proof.
  unfold encode. rewrite (encode_segment_take sourceHeader).
  destruct (encode_segment sourceHeader _ _) as [st1| | |]; cbn [bind]; try done.
  rewrite (encode_segment_take sourceBody).
  destruct (encode_segment sourceBody _ _) as [st2| | |]; cbn [bind]; try done.
  by rewrite (encode_segment_take sourceTrailer).
Qed.

(** X5.  [encode] reads the first [sourceHeaderSize], [sourceBodySize] and
    [sourceTrailerSize] bytes of its three sources and nothing else: the
    outcome is the same when each buffer is cut to its size. *)
Theorem encode_reads_sizes (sourceHeader : list Z) (sourceHeaderSize : Z)
    (sourceBody : list Z) (sourceBodySize : Z)
    (sourceTrailer : list Z) (sourceTrailerSize : Z) (destination : list Z) :
  encode sourceHeader sourceHeaderSize sourceBody sourceBodySize
    sourceTrailer sourceTrailerSize destination =
  encode (take (Z.to_nat sourceHeaderSize) sourceHeader) sourceHeaderSize
    (take (Z.to_nat sourceBodySize) sourceBody) sourceBodySize
    (take (Z.to_nat sourceTrailerSize) sourceTrailer) sourceTrailerSize destination.
Proof. apply encode_take. Qed.

Lemma decode_for_take (source : list Z) (n : nat) (fuel : nat) :
  forall (code i r w : Z) (destination : list Z),
  0 <= i -> code <= 255 -> 0 <= r ->
  (i < code -> r + (code - i) <= Z.of_nat n) ->
  Z.of_nat n <= 65535 ->
  decode_for fuel (take n source) code i (Dec.mk r w destination) =
  decode_for fuel source code i (Dec.mk r w destination).
Proof.
  induction fuel as [|fuel IH]; intros code i r w destination Hi Hcode Hr Hfit H16;
    [done|].
  cbn [decode_for]. destruct (Z.ltb_spec i code) as [Hlt|_]; [|done].
  rewrite load_take by lia.
  destruct (load source r) as [b| | |]; cbn [bind]; try done.
  destruct (store destination w b) as [d1| | |]; cbn [bind]; try done.
  rewrite uint16_small, uint8_small by lia.
  apply IH; lia.
Qed.

Lemma decode_body_take (source : list Z) (size r w : Z) (destination : list Z) :
  bytes source ->
  size <= Z.of_nat (length source) ->
  size <= 65535 ->
  0 <= r < size ->
  decode_body (take (Z.to_nat size) source) size (Dec.mk r w destination) =
  decode_body source size (Dec.mk r w destination).
Proof.
  intros Hsrc Hls H16 Hr.
  destruct (load_lt source r) as (code & Hload & Hcode); [lia|].
  pose proof (bytes_lookup _ _ _ Hsrc Hcode) as Hc.
  unfold decode_body. rewrite load_take, Hload by lia. cbn [bind].
  destruct ((r + code >? size) && negb (code =? 1)) eqn:Hbad; [done|].
  assert (Hok : r + code <= size \/ code = 1).
  { apply andb_false_iff in Hbad as [Hle|Heq]; [lia|].
    apply negb_false_iff, Z.eqb_eq in Heq. lia. }
  rewrite uint16_small by lia.
  by rewrite decode_for_take by lia.
Qed.

Lemma decode_while_take (source : list Z) (size : Z) (fuel : nat) :
  forall (r w : Z) (destination : list Z),
  bytes source ->
  size <= Z.of_nat (length source) ->
  size <= 65535 ->
  0 <= r ->
  decode_while fuel (take (Z.to_nat size) source) size (Dec.mk r w destination) =
  decode_while fuel source size (Dec.mk r w destination).
Proof.
  induction fuel as [|fuel IH]; intros r w destination Hsrc Hls H16 Hr; [done|].
  cbn [decode_while Dec.read_index]. destruct (Z.ltb_spec r size) as [Hlt|_]; [|done].
  rewrite decode_body_take by (done || lia).
  pose proof (decode_body_reads source size r w destination Hsrc Hls H16) as Hreads.
  destruct (decode_body source size _) as [[[r1 w1 d1]|ret]| | |]; cbn [bind]; try done.
  apply IH; try done. simpl in Hreads. lia.
Qed.

(** X6.  [decode] reads the first [size] bytes of its source and nothing
    else: the outcome is the same when the source is cut to [size] bytes,
    whatever follows them in the buffer and whatever the destination. *)
Theorem decode_reads_size (source : list Z) (size : Z) (destination : list Z) :
  bytes source ->
  0 <= size <= 65535 ->
  size <= Z.of_nat (length source) ->
  decode source size destination =
  decode (take (Z.to_nat size) source) size destination.
Proof.
  intros Hsrc H16 Hls. unfold decode, decode_fuel.
  by rewrite decode_while_take by (done || lia).
Qed.

Lemma decode_reads_size_witness :
  decode [3; 1; 2; 1; 77; 0; 5] 4 (replicate 4 9) =
  decode (take (Z.to_nat 4) [3; 1; 2; 1; 77; 0; 5]) 4 (replicate 4 9).
Proof.
  apply (decode_reads_size [3; 1; 2; 1; 77; 0; 5] 4 (replicate 4 9));
    try reflexivity; simpl; lia.
Defined.

(** ** [encode] is injective *)

(** Two sequences of groups with the same bytes stand for the same
    message: [decode] reads it off the bytes. *)
Lemma groups_bytes_inj (gs1 gs2 : list (list Z)) :
  Forall (fun data => (length data <= 254)%nat) gs1 ->
  Forall (fun data => (length data <= 254)%nat) gs2 ->
  Z.of_nat (length (groups gs1)) <= 65535 ->
  groups gs1 = groups gs2 ->
  groups_bytes gs1 = groups_bytes gs2.
Proof.
  intros Hgs1 Hgs2 H16 Heq.
  set (fuel := length (groups gs1)).
  set (size := Z.of_nat fuel).
  set (d := replicate fuel 0).
  assert (Hd : size <= Z.of_nat (length d)) by (unfold d; rewrite length_replicate; lia).
  assert (Hrun : forall gs, Forall (fun data => (length data <= 254)%nat) gs ->
            groups gs = groups gs1 ->
            decode_while fuel (groups gs1) size (Dec.mk 0 0 d) =
            Ok (Continue (Dec.mk size (0 + Z.of_nat (length (groups_bytes gs)))
                            (splice d 0 (groups_bytes gs))))).
  { intros gs Hgs Hsame.
    apply (decode_groups gs [] [] (groups gs1) size fuel 0 d); try done.
    - by rewrite Hsame, app_nil_r.
    - rewrite Hsame. unfold size, fuel. simpl. lia.
    - unfold fuel. rewrite <- Hsame. apply length_groups_ge. }
  pose proof (Hrun gs1 Hgs1 eq_refl) as Hrun1.
  rewrite (Hrun gs2 Hgs2 (eq_sym Heq)) in Hrun1.
  injection Hrun1 as Hlen Hsplice.
  assert (Hlen' : length (groups_bytes gs2) = length (groups_bytes gs1)) by lia.
  pose proof (take_splice d 0 (groups_bytes gs1)) as Htake1.
  pose proof (take_splice d 0 (groups_bytes gs2)) as Htake2.
  simpl in Htake1, Htake2.
  rewrite <- Htake1, <- Htake2, Hsplice, Hlen' by lia. done.
Qed.

(** X7.  [encode] is injective: two inputs (each within the 16-bit bound,
    encoded into destinations large enough) for which it returns the same
    length and writes the same code are the same sequence of bytes,
    however each is split into header, body and trailer. *)
Theorem encode_injective (header1 body1 trailer1 destination1 encoded1 : list Z)
    (header2 body2 trailer2 destination2 encoded2 : list Z) (encodedLen : Z) :
  bytes header1 -> bytes body1 -> bytes trailer1 ->
  bytes header2 -> bytes body2 -> bytes trailer2 ->
  let total1 := Z.of_nat (length (header1 ++ body1 ++ trailer1)) in
  let total2 := Z.of_nat (length (header2 ++ body2 ++ trailer2)) in
  total1 + total1 / 254 + 1 <= 65535 ->
  total1 + total1 / 254 + 1 <= Z.of_nat (length destination1) ->
  total2 + total2 / 254 + 1 <= 65535 ->
  total2 + total2 / 254 + 1 <= Z.of_nat (length destination2) ->
  encode header1 (Z.of_nat (length header1)) body1 (Z.of_nat (length body1))
    trailer1 (Z.of_nat (length trailer1)) destination1 = Ok (encodedLen, encoded1) ->
  encode header2 (Z.of_nat (length header2)) body2 (Z.of_nat (length body2))
    trailer2 (Z.of_nat (length trailer2)) destination2 = Ok (encodedLen, encoded2) ->
  take (Z.to_nat encodedLen) encoded1 = take (Z.to_nat encodedLen) encoded2 ->
  header1 ++ body1 ++ trailer1 = header2 ++ body2 ++ trailer2.
Proof.
  intros Hh1 Hb1 Ht1 Hh2 Hb2 Ht2 total1 total2 Hfit1 Hcap1 Hfit2 Hcap2 Henc1 Henc2 Hsame.
  destruct (encode_groups header1 body1 trailer1 destination1)
    as (gs1 & rest1 & Hg1 & Hbytes1 & Hgs1 & _); try done.
  destruct (encode_groups header2 body2 trailer2 destination2)
    as (gs2 & rest2 & Hg2 & Hbytes2 & Hgs2 & _); try done.
  destruct (encode_spec header1 body1 trailer1 destination1)
    as (W & d & Hspec & _); try done.
  { unfold total1 in Hfit1. rewrite !length_app in Hfit1.
    assert (0 <= Z.of_nat (length header1 + (length body1 + length trailer1)) / 254)
      by (apply Z.div_pos; lia). lia. }
  { unfold total1 in Hfit1. rewrite !length_app in Hfit1.
    assert (0 <= Z.of_nat (length header1 + (length body1 + length trailer1)) / 254)
      by (apply Z.div_pos; lia). lia. }
  { unfold total1 in Hfit1. rewrite !length_app in Hfit1.
    assert (0 <= Z.of_nat (length header1 + (length body1 + length trailer1)) / 254)
      by (apply Z.div_pos; lia). lia. }
  { fold total1. lia. }
  rewrite Henc1 in Hg1, Hspec. rewrite Henc2 in Hg2.
  injection Hg1 as Hn1 He1. injection Hg2 as Hn2 He2. injection Hspec as HnW _.
  rewrite He1, He2 in Hsame. rewrite Hn1 in Hsame at 1. rewrite Hn2 in Hsame.
  rewrite !Nat2Z.id, !take_app_length in Hsame.
  rewrite <- Hbytes1, <- Hbytes2.
  apply groups_bytes_inj; try done.
  rewrite <- Hn1, HnW. zdiv.
Qed.

Lemma encode_injective_witness :
  [1; 2] ++ [0; 3] ++ [4] = [] ++ [1; 2; 0; 3; 4] ++ [].
Proof.
  apply (encode_injective [1; 2] [0; 3] [4] (replicate 6 0) [3; 1; 2; 3; 3; 4]
           [] [1; 2; 0; 3; 4] [] (replicate 8 7) [3; 1; 2; 3; 3; 4; 7; 7] 6);
    try reflexivity; vm_compute; discriminate.
Defined.

(** ** What [encode] leaves of the destination *)

Lemma enc_byte_frame (b : Z) (s s' : encoder) :
  enc_byte b s = Ok s' ->
  0 <= enc_code_index s < enc_write s ->
  enc_write s < enc_write s' ->
  drop (Z.to_nat (enc_write s')) (enc_dest s') =
  drop (Z.to_nat (enc_write s')) (enc_dest s).
Proof.
  destruct s as [w ci c d]. cbn [enc_write enc_code_index enc_code enc_dest].
  intros Hstep Hci Hlt. unfold enc_byte in Hstep. destruct (b =? 0).
  - apply bind_inv in Hstep as (d1 & [_ ->]%store_inv & Heq). injection Heq as <-.
    cbn [enc_write enc_dest] in *. apply drop_insert_lt. lia.
  - apply bind_inv in Hstep as (d1 & [_ ->]%store_inv & Hstep).
    destruct (uint8 (c + 1) =? 255).
    + apply bind_inv in Hstep as (d2 & [_ ->]%store_inv & Heq). injection Heq as <-.
      cbn [enc_write enc_dest] in *.
      assert (w < uint16 (w + 1)) by (unfold uint16 in *; zdiv).
      rewrite !drop_insert_lt by lia. done.
    + injection Hstep as <-. cbn [enc_write enc_dest] in *.
      apply drop_insert_lt. lia.
Qed.

Lemma drop_le_eq (l1 l2 : list Z) (n m : nat) :
  (n <= m)%nat -> drop n l1 = drop n l2 -> drop m l1 = drop m l2.
Proof.
  intros Hle Heq. replace m with (n + (m - n))%nat by lia.
  by rewrite <- !drop_drop, Heq.
Qed.

Lemma enc_bytes_frame (l : list Z) : forall (s : encoder) (cap : Z) (nz : bool)
    (n W : Z) (d0 : list Z),
  enc_inv cap nz n W s ->
  bytes l ->
  (n + Z.of_nat (length l)) + (n + Z.of_nat (length l)) / 254 + 1 <= cap ->
  (n + Z.of_nat (length l)) + (n + Z.of_nat (length l)) / 254 + 1 <= 65535 ->
  drop (Z.to_nat W) (enc_dest s) = drop (Z.to_nat W) d0 ->
  exists s' W', enc_bytes l s = Ok s' /\
    enc_inv cap (nz && nonzerob l) (n + Z.of_nat (length l)) W' s' /\
    W' <= 65535 /\
    drop (Z.to_nat W') (enc_dest s') = drop (Z.to_nat W') d0.
Proof.
  induction l as [|b l IH]; intros s cap nz n W d0 Hinv Hl Hcap H16 Hdrop.
  - exists s, W. split; [done|]. simpl. rewrite andb_true_r, Z.add_0_r.
    split; [done|]. split; [|done].
    destruct (enc_inv_bound _ _ _ _ _ Hinv) as [HW _].
    rewrite length_nil, Z.add_0_r in H16. lia.
  - unfold bytes in Hl. simpl in Hl. apply andb_prop in Hl as [Hb Hl].
    rewrite length_cons, Nat2Z.inj_succ in Hcap, H16.
    pose proof (inv_n _ _ _ _ _ Hinv) as Hn.
    destruct (enc_byte_inv cap nz n W b s Hinv Hb) as (s1 & W1 & Hstep & HW1 & Hinv1);
      [zdiv|].
    destruct (enc_inv_bound _ _ _ _ _ Hinv1) as [Hbound1 _].
    assert (HW16 : 1 <= W /\ W1 <= 65535).
    { pose proof (inv_flushes _ _ _ _ _ Hinv). zdiv. }
    assert (Hw : enc_write s = W)
      by (rewrite (inv_write _ _ _ _ _ Hinv); apply Z.mod_small; lia).
    assert (Hw1 : enc_write s1 = W1)
      by (rewrite (inv_write _ _ _ _ _ Hinv1); apply Z.mod_small; lia).
    assert (Hci : 0 <= enc_code_index s < W).
    { rewrite (inv_code_index _ _ _ _ _ Hinv).
      pose proof (inv_code _ _ _ _ _ Hinv). pose proof (inv_run _ _ _ _ _ Hinv).
      pose proof (inv_flushes _ _ _ _ _ Hinv). zdiv. }
    pose proof (enc_byte_frame b s s1 Hstep) as Hframe.
    rewrite Hw, Hw1 in Hframe. specialize (Hframe Hci HW1).
    destruct (IH s1 cap _ (n + 1) W1 d0 Hinv1 Hl) as (s2 & W2 & Hrest & Hinv2 & HW2 & Hdrop2).
    { by replace (n + 1 + Z.of_nat (length l)) with (n + Z.succ (Z.of_nat (length l))) by lia. }
    { by replace (n + 1 + Z.of_nat (length l)) with (n + Z.succ (Z.of_nat (length l))) by lia. }
    { rewrite Hframe. apply (drop_le_eq _ _ (Z.to_nat W)); [lia|done]. }
    exists s2, W2. split; [cbn [enc_bytes]; by rewrite Hstep|].
    split; [|done].
    cbn [nonzerob forallb length]. fold (nonzerob l).
    rewrite Nat2Z.inj_succ, andb_assoc.
    by replace (n + Z.succ (Z.of_nat (length l))) with (n + 1 + Z.of_nat (length l)) by lia.
Qed.

(** X8.  [encode] keeps the length of the destination and leaves the
    bytes from index [encodedLen] on as they were before the call (for an
    input within the 16-bit bound). *)
Theorem encode_frame (header body trailer destination : list Z) :
  bytes header -> bytes body -> bytes trailer ->
  let total := Z.of_nat (length (header ++ body ++ trailer)) in
  total + total / 254 + 1 <= 65535 ->
  total + total / 254 + 1 <= Z.of_nat (length destination) ->
  exists (encodedLen : Z) (destination' : list Z),
    encode header (Z.of_nat (length header)) body (Z.of_nat (length body))
      trailer (Z.of_nat (length trailer)) destination =
      Ok (encodedLen, destination') /\
    length destination' = length destination /\
    drop (Z.to_nat encodedLen) destination' = drop (Z.to_nat encodedLen) destination.
Proof.
  intros Hh Hb Ht total H16 Hcap.
  assert (Htotal : total = Z.of_nat (length header) + Z.of_nat (length body) +
                           Z.of_nat (length trailer))
    by (unfold total; rewrite !length_app; lia).
  assert (Hdiv : 0 <= total / 254) by (apply Z.div_pos; lia).
  rewrite encode_bytes by lia.
  destruct (enc_bytes_frame (header ++ body ++ trailer) _ _ true 0 1 destination
              (enc_inv_init destination)) as (s & W & Hrun & Hinv & HW & Hdrop);
    try done; try (by rewrite !bytes_app); try (by rewrite Z.add_0_l).
  destruct Hinv as [Hc Hn Hf Hr Hx Hw Hci Hnzero Hlen].
  destruct s as [w ci c d]. cbn [enc_write enc_code_index enc_code enc_dest] in *.
  rewrite Hrun. cbn [bind]. unfold enc_finish.
  cbn [enc_write enc_code_index enc_code enc_dest].
  rewrite store_lt by (subst ci; zdiv). cbn [bind].
  eexists _, _. split; [reflexivity|].
  rewrite length_insert. split; [lia|].
  rewrite Hw, Z.mod_small by zdiv.
  rewrite drop_insert_lt by (subst ci; zdiv). done.
Qed.

Lemma encode_frame_witness :
  exists (encodedLen : Z) (destination' : list Z),
    encode [1; 2] 2 [0; 3] 2 [4] 1 (replicate 9 7) = Ok (encodedLen, destination') /\
    length destination' = length (replicate 9 7) /\
    drop (Z.to_nat encodedLen) destination' = drop (Z.to_nat encodedLen) (replicate 9 7).
Proof.
  apply (encode_frame [1; 2] [0; 3] [4] (replicate 9 7));
    try reflexivity; vm_compute; discriminate.
Defined.

(** ** The code does not depend on the destination *)

Lemma enc_byte_agree (b : Z) (s1 s2 s1' s2' : encoder) :
  enc_byte b s1 = Ok s1' ->
  enc_byte b s2 = Ok s2' ->
  enc_write s1 = enc_write s2 ->
  enc_code_index s1 = enc_code_index s2 ->
  enc_code s1 = enc_code s2 ->
  0 <= enc_code_index s1 < enc_write s1 ->
  enc_write s1 <= 65535 ->
  enc_write s1 < enc_write s1' ->
  agree (enc_write s1) (enc_code_index s1) (enc_dest s1) (enc_dest s2) ->
  enc_write s1' = enc_write s2' /\
  enc_code_index s1' = enc_code_index s2' /\
  enc_code s1' = enc_code s2' /\
  agree (enc_write s1') (enc_code_index s1') (enc_dest s1') (enc_dest s2').
Proof.
  destruct s1 as [w ci c d1], s2 as [w2 ci2 c2 d2].
  cbn [enc_write enc_code_index enc_code enc_dest].
  intros Hstep1 Hstep2 <- <- <- Hci H16 Hlt Hagree.
  unfold enc_byte in Hstep1, Hstep2. destruct (b =? 0).
  - apply bind_inv in Hstep1 as (e1 & Hst1 & Heq1). injection Heq1 as <-.
    apply bind_inv in Hstep2 as (e2 & Hst2 & Heq2). injection Heq2 as <-.
    cbn [enc_write enc_code_index enc_code enc_dest] in *.
    assert (Hw1 : uint16 (w + 1) = w + 1) by (unfold uint16 in *; zdiv).
    repeat split; try done. rewrite Hw1. intros i Hi Hne.
    rewrite (store_lookup _ _ _ _ i Hst1), (store_lookup _ _ _ _ i Hst2) by lia.
    destruct (decide (i = ci)); [done|]. apply Hagree; [lia|done].
  - apply bind_inv in Hstep1 as (e1 & Hst1 & Hstep1).
    apply bind_inv in Hstep2 as (e2 & Hst2 & Hstep2).
    destruct (uint8 (c + 1) =? 255).
    + apply bind_inv in Hstep1 as (f1 & Hst1' & Heq1). injection Heq1 as <-.
      apply bind_inv in Hstep2 as (f2 & Hst2' & Heq2). injection Heq2 as <-.
      cbn [enc_write enc_code_index enc_code enc_dest] in *.
      assert (Hw1 : uint16 (w + 1) = w + 1) by (unfold uint16 in *; zdiv).
      rewrite Hw1 in *.
      assert (Hw2 : uint16 (w + 1 + 1) = w + 2) by (unfold uint16 in *; zdiv).
      repeat split; try done. rewrite Hw2. intros i Hi Hne.
      rewrite (store_lookup _ _ _ _ i Hst1'), (store_lookup _ _ _ _ i Hst2') by lia.
      destruct (decide (i = ci)); [done|].
      rewrite (store_lookup _ _ _ _ i Hst1), (store_lookup _ _ _ _ i Hst2) by lia.
      destruct (decide (i = w)); [done|]. apply Hagree; [lia|done].
    + injection Hstep1 as <-. injection Hstep2 as <-.
      cbn [enc_write enc_code_index enc_code enc_dest] in *.
      assert (Hw1 : uint16 (w + 1) = w + 1) by (unfold uint16 in *; zdiv).
      repeat split; try done. rewrite Hw1. intros i Hi Hne.
      rewrite (store_lookup _ _ _ _ i Hst1), (store_lookup _ _ _ _ i Hst2) by lia.
      destruct (decide (i = w)); [done|]. apply Hagree; [lia|done].
Qed.

Lemma enc_bytes_agree (l : list Z) : forall (s1 s2 : encoder) (cap1 cap2 : Z)
    (nz : bool) (n W : Z),
  enc_inv cap1 nz n W s1 ->
  enc_inv cap2 nz n W s2 ->
  enc_code s1 = enc_code s2 ->
  agree W (enc_code_index s1) (enc_dest s1) (enc_dest s2) ->
  bytes l ->
  (n + Z.of_nat (length l)) + (n + Z.of_nat (length l)) / 254 + 1 <= Z.min cap1 cap2 ->
  (n + Z.of_nat (length l)) + (n + Z.of_nat (length l)) / 254 + 1 <= 65535 ->
  exists s1' s2' W',
    enc_bytes l s1 = Ok s1' /\ enc_bytes l s2 = Ok s2' /\
    enc_inv cap1 (nz && nonzerob l) (n + Z.of_nat (length l)) W' s1' /\
    enc_inv cap2 (nz && nonzerob l) (n + Z.of_nat (length l)) W' s2' /\
    W' <= 65535 /\
    enc_code s1' = enc_code s2' /\
    agree W' (enc_code_index s1') (enc_dest s1') (enc_dest s2').
Proof.
  induction l as [|b l IH]; intros s1 s2 cap1 cap2 nz n W Hinv1 Hinv2 Hcode Hagree Hl Hcap H16.
  - exists s1, s2, W. simpl. rewrite andb_true_r, Z.add_0_r.
    do 4 (split; [done|]). split; [|done].
    destruct (enc_inv_bound _ _ _ _ _ Hinv1) as [HW _].
    rewrite length_nil, Z.add_0_r in H16. lia.
  - unfold bytes in Hl. simpl in Hl. apply andb_prop in Hl as [Hb Hl].
    rewrite length_cons, Nat2Z.inj_succ in Hcap, H16.
    pose proof (inv_n _ _ _ _ _ Hinv1) as Hn.
    destruct (enc_byte_inv cap1 nz n W b s1 Hinv1 Hb) as (t1 & W1 & Hstep1 & HW1 & Hinvt1);
      [zdiv|].
    destruct (enc_byte_inv cap2 nz n W b s2 Hinv2 Hb) as (t2 & W2 & Hstep2 & HW2 & Hinvt2);
      [zdiv|].
    destruct (enc_inv_bound _ _ _ _ _ Hinvt1) as [Hbound1 _].
    destruct (enc_inv_bound _ _ _ _ _ Hinvt2) as [Hbound2 _].
    assert (HW16 : 1 <= W /\ W1 <= 65535 /\ W2 <= 65535).
    { pose proof (inv_flushes _ _ _ _ _ Hinv1). zdiv. }
    assert (Hw : enc_write s1 = W)
      by (rewrite (inv_write _ _ _ _ _ Hinv1); apply Z.mod_small; lia).
    assert (Hw' : enc_write s2 = W)
      by (rewrite (inv_write _ _ _ _ _ Hinv2); apply Z.mod_small; lia).
    assert (Hwt1 : enc_write t1 = W1)
      by (rewrite (inv_write _ _ _ _ _ Hinvt1); apply Z.mod_small; lia).
    assert (Hwt2 : enc_write t2 = W2)
      by (rewrite (inv_write _ _ _ _ _ Hinvt2); apply Z.mod_small; lia).
    assert (Hci : 0 <= enc_code_index s1 < W).
    { rewrite (inv_code_index _ _ _ _ _ Hinv1).
      pose proof (inv_code _ _ _ _ _ Hinv1). pose proof (inv_run _ _ _ _ _ Hinv1).
      pose proof (inv_flushes _ _ _ _ _ Hinv1). zdiv. }
    assert (Hcis : enc_code_index s1 = enc_code_index s2)
      by (rewrite (inv_code_index _ _ _ _ _ Hinv1), (inv_code_index _ _ _ _ _ Hinv2), Hcode;
          done).
    destruct (enc_byte_agree b s1 s2 t1 t2 Hstep1 Hstep2)
      as (Hwt & Hcit & Hcodet & Hagreet); try lia; try done.
    { by rewrite Hw. }
    assert (W2 = W1) as -> by lia.
    destruct (IH t1 t2 cap1 cap2 _ (n + 1) W1 Hinvt1 Hinvt2 Hcodet)
      as (u1 & u2 & W3 & Hrun1 & Hrun2 & Hinvu1 & Hinvu2 & HW3 & Hcodeu & Hagreeu);
      try done.
    { by rewrite <- Hwt1. }
    { by replace (n + 1 + Z.of_nat (length l)) with (n + Z.succ (Z.of_nat (length l))) by lia. }
    { by replace (n + 1 + Z.of_nat (length l)) with (n + Z.succ (Z.of_nat (length l))) by lia. }
    exists u1, u2, W3. cbn [enc_bytes]. rewrite Hstep1, Hstep2. cbn [bind].
    cbn [nonzerob forallb length]. fold (nonzerob l).
    rewrite Nat2Z.inj_succ, andb_assoc.
    replace (n + Z.succ (Z.of_nat (length l))) with (n + 1 + Z.of_nat (length l)) by lia.
    by do 6 (split; [done|]).
Qed.

(** X9.  The code that [encode] returns does not depend on what the
    destination held before the call: into two destinations, each large
    enough, [encode] returns the same length and writes the same bytes
    below that length (for an input within the 16-bit bound). *)
Theorem encode_destination_independent
    (header body trailer destination1 destination2 : list Z) :
  bytes header -> bytes body -> bytes trailer ->
  let total := Z.of_nat (length (header ++ body ++ trailer)) in
  total + total / 254 + 1 <= 65535 ->
  total + total / 254 + 1 <= Z.of_nat (length destination1) ->
  total + total / 254 + 1 <= Z.of_nat (length destination2) ->
  exists (encodedLen : Z) (encoded1 encoded2 : list Z),
    encode header (Z.of_nat (length header)) body (Z.of_nat (length body))
      trailer (Z.of_nat (length trailer)) destination1 = Ok (encodedLen, encoded1) /\
    encode header (Z.of_nat (length header)) body (Z.of_nat (length body))
      trailer (Z.of_nat (length trailer)) destination2 = Ok (encodedLen, encoded2) /\
    take (Z.to_nat encodedLen) encoded1 = take (Z.to_nat encodedLen) encoded2.
Proof.
  intros Hh Hb Ht total H16 Hcap1 Hcap2.
  assert (Htotal : total = Z.of_nat (length header) + Z.of_nat (length body) +
                           Z.of_nat (length trailer))
    by (unfold total; rewrite !length_app; lia).
  assert (Hdiv : 0 <= total / 254) by (apply Z.div_pos; lia).
  rewrite !encode_bytes by lia.
  destruct (enc_bytes_agree (header ++ body ++ trailer)
              (Encoder 1 0 1 destination1) (Encoder 1 0 1 destination2) _ _ true 0 1
              (enc_inv_init destination1) (enc_inv_init destination2))
    as (s1 & s2 & W & Hrun1 & Hrun2 & Hinv1 & Hinv2 & HW & Hcode & Hagree);
    try done; try (by rewrite !bytes_app).
  { intros i Hi Hne. simpl in Hne. lia. }
  { rewrite Z.add_0_l. fold total. lia. }
  pose proof (inv_flushes _ _ _ _ _ Hinv1) as Hf. pose proof (inv_n _ _ _ _ _ Hinv1) as Hn.
  pose proof (inv_code _ _ _ _ _ Hinv1) as Hc. pose proof (inv_run _ _ _ _ _ Hinv1) as Hr.
  assert (Hcis : enc_code_index s1 = enc_code_index s2)
    by (rewrite (inv_code_index _ _ _ _ _ Hinv1), (inv_code_index _ _ _ _ _ Hinv2), Hcode;
        done).
  assert (Hci : 0 <= enc_code_index s1 < W)
    by (rewrite (inv_code_index _ _ _ _ _ Hinv1); zdiv).
  assert (Hw1 : enc_write s1 = W)
    by (rewrite (inv_write _ _ _ _ _ Hinv1); apply Z.mod_small; lia).
  assert (Hw2 : enc_write s2 = W)
    by (rewrite (inv_write _ _ _ _ _ Hinv2); apply Z.mod_small; lia).
  pose proof (inv_length _ _ _ _ _ Hinv1) as Hlen1.
  pose proof (inv_length _ _ _ _ _ Hinv2) as Hlen2.
  pose proof (enc_inv_bound _ _ _ _ _ Hinv1) as [HWb _].
  rewrite Z.add_0_l in HWb. fold total in HWb.
  rewrite Hrun1, Hrun2. cbn [bind]. unfold enc_finish.
  destruct (store (enc_dest s1) _ _) as [e1| | |] eqn:Hst1;
    try (rewrite store_lt in Hst1 by lia; discriminate).
  destruct (store (enc_dest s2) _ _) as [e2| | |] eqn:Hst2;
    try (rewrite store_lt in Hst2 by lia; discriminate).
  cbn [bind]. exists W, e1, e2. rewrite Hw1, Hw2. repeat split.
  apply list_eq. intros i. destruct (decide (i < Z.to_nat W)%nat) as [Hlt|Hge].
  - rewrite !lookup_take_lt by done.
    replace i with (Z.to_nat (Z.of_nat i)) by lia.
    rewrite (store_lookup _ _ _ _ (Z.of_nat i) Hst1) by lia.
    rewrite (store_lookup _ _ _ _ (Z.of_nat i) Hst2) by lia.
    rewrite <- Hcis, Hcode. destruct (decide (Z.of_nat i = enc_code_index s1)); [done|].
    apply Hagree; [lia|done].
  - rewrite !lookup_take_ge by lia. done.
Qed.

Lemma encode_destination_independent_witness :
  exists (encodedLen : Z) (encoded1 encoded2 : list Z),
    encode [1; 2] 2 [0; 3] 2 [4] 1 (replicate 6 0) = Ok (encodedLen, encoded1) /\
    encode [1; 2] 2 [0; 3] 2 [4] 1 [9; 8; 7; 6; 5; 4; 3; 2] = Ok (encodedLen, encoded2) /\
    take (Z.to_nat encodedLen) encoded1 = take (Z.to_nat encodedLen) encoded2.
Proof.
  apply (encode_destination_independent [1; 2] [0; 3] [4] (replicate 6 0)
           [9; 8; 7; 6; 5; 4; 3; 2]);
    try reflexivity; vm_compute; discriminate.
Defined.

(** ** [decode] on a code cut inside a group *)

(** Groups that do not end the input: each gives its data, and a zero
    byte unless its code byte is 0xFF. *)
Lemma decode_inner_groups (gs : list (list Z)) : forall (pre junk source : list Z)
    (size : Z) (fuel : nat) (w : Z) (destination : list Z),
  source = pre ++ groups gs ++ junk ->
  Z.of_nat (length pre) + Z.of_nat (length (groups gs)) < size ->
  size <= Z.of_nat (length source) ->
  Forall (fun data => (length data <= 254)%nat) gs ->
  size <= 65535 ->
  size <= Z.of_nat (length destination) ->
  0 <= w <= Z.of_nat (length pre) ->
  decode_while (length gs + fuel) source size
    (Dec.mk (Z.of_nat (length pre)) w destination) =
  decode_while fuel source size
    (Dec.mk (Z.of_nat (length pre) + Z.of_nat (length (groups gs)))
       (w + Z.of_nat (length (inner_bytes gs)))
       (splice destination (Z.to_nat w) (inner_bytes gs))).
Proof.
  induction gs as [|data gs IH];
    intros pre junk source size fuel w destination Hsource Hsize Hlen Hgs H16 Hld Hw.
  - simpl. by rewrite splice_nil, !Z.add_0_r.
  - apply Forall_cons in Hgs as [Hdata Hgs].
    rewrite length_groups_cons in Hsize.
    set (code := 1 + Z.of_nat (length data)).
    assert (Hsrc : source = pre ++ code :: data ++ groups gs ++ junk)
      by (rewrite Hsource; unfold groups, group; by app_norm).
    assert (Hcode : source !! Z.to_nat (Z.of_nat (length pre)) = Some code)
      by (rewrite Nat2Z.id, Hsrc; apply list_lookup_middle; done).
    cbn [length Nat.add decode_while Dec.read_index].
    destruct (Z.ltb_spec (Z.of_nat (length pre)) size) as [_|Hge]; [|lia].
    rewrite (decode_body_spec source size _ w code destination)
      by (done || (unfold code; lia)).
    destruct (Z.gtb_spec (Z.of_nat (length pre) + code) size) as [Hgt|_];
      [unfold code in Hgt; lia|].
    cbn [andb bind].
    replace (Z.to_nat (code - 1)) with (length data) by (unfold code; lia).
    assert (Hcopy : take (length data) (drop (Z.to_nat (Z.of_nat (length pre) + 1)) source)
                    = data).
    { replace (Z.to_nat (Z.of_nat (length pre) + 1)) with (length (pre ++ [code]))
        by (rewrite length_app; simpl; lia).
      rewrite Hsrc.
      replace (pre ++ code :: data ++ groups gs ++ junk)
        with ((pre ++ [code]) ++ data ++ groups gs ++ junk) by (by app_norm).
      rewrite drop_app_length. by rewrite take_app_length. }
    rewrite Hcopy.
    destruct (Z.eqb_spec (Z.of_nat (length pre) + 1 + Z.of_nat (length data)) size)
      as [Heq|_]; [lia|].
    rewrite andb_true_r.
    assert (Hbytes : data ++ (if negb (code =? 255) then [0] else []) =
                     group_bytes false data).
    { unfold group_bytes, code. f_equal. rewrite orb_false_r.
      destruct (Z.eqb_spec (1 + Z.of_nat (length data)) 255);
        destruct (Z.eqb_spec (Z.of_nat (length data)) 254); try lia; done. }
    rewrite Hbytes.
    set (out := group_bytes false data) in *.
    assert (Hout : (length out <= length data + 1)%nat).
    { rewrite <- Hbytes, length_app. destruct (negb _); simpl; lia. }
    replace (Z.of_nat (length pre) + 1 + Z.of_nat (length data))
      with (Z.of_nat (length (pre ++ group data)))
      by (rewrite length_app, length_group; lia).
    rewrite (IH (pre ++ group data) junk source size fuel); try done.
    + f_equal.
      change (inner_bytes (data :: gs)) with (out ++ inner_bytes gs).
      f_equal.
      * rewrite length_app, length_group, length_groups_cons. lia.
      * rewrite length_app. lia.
      * replace (Z.to_nat (w + Z.of_nat (length out))) with (Z.to_nat w + length out)%nat
          by lia.
        apply splice_app. lia.
    + rewrite Hsource. unfold groups. simpl. by app_norm.
    + rewrite length_app, length_group. lia.
    + rewrite length_splice; lia.
    + rewrite length_app, length_group. lia.
Qed.

(** X10.  A code cut inside a group is rejected: when the input is a
    sequence of whole groups followed by a code byte [code] of 2 or more
    and fewer than [code - 1] data bytes, [decode] returns 0. *)
Theorem decode_truncated (gs : list (list Z)) (code : Z) (data destination : list Z) :
  Forall (fun data => (length data <= 254)%nat) gs ->
  2 <= code <= 255 ->
  Z.of_nat (length data) < code - 1 ->
  let source := groups gs ++ code :: data in
  Z.of_nat (length source) <= 65535 ->
  Z.of_nat (length source) <= Z.of_nat (length destination) ->
  exists destination',
    decode source (Z.of_nat (length source)) destination = Ok (0, destination').
Proof.
  intros Hgs Hcode Hdata source H16 Hld.
  assert (Hfuel : exists fuel, length source = (length gs + S fuel)%nat).
  { pose proof (length_groups_ge gs). exists (length source - length gs - 1)%nat.
    unfold source. rewrite length_app. simpl. lia. }
  destruct Hfuel as [fuel Hfuel].
  assert (Hsize : Z.of_nat (length (groups gs)) < Z.of_nat (length source))
    by (unfold source; rewrite length_app; simpl; lia).
  unfold decode, decode_fuel. rewrite Nat2Z.id.
  set (size := Z.of_nat (length source)) in *. rewrite Hfuel.
  rewrite (decode_inner_groups gs [] (code :: data) source);
    try done; try (simpl; lia); try (unfold size; lia).
  change (Z.of_nat (length (@nil Z))) with 0. rewrite Z.add_0_l.
  cbn [decode_while Dec.read_index].
  destruct (Z.ltb_spec (Z.of_nat (length (groups gs))) size) as [_|Hge]; [|lia].
  unfold decode_body, load.
  rewrite Nat2Z.id. unfold source at 1. rewrite list_lookup_middle by done.
  cbn [bind].
  destruct (Z.gtb_spec (Z.of_nat (length (groups gs)) + code) size)
    as [_|Hle];
    [|unfold size, source in Hle; rewrite length_app in Hle; simpl in Hle; lia].
  destruct (Z.eqb_spec code 1); [lia|]. cbn [andb negb bind]. eauto.
Qed.

Lemma decode_truncated_witness :
  exists destination',
    decode ([3; 1; 2] ++ [4; 5; 6]) (Z.of_nat (length ([3; 1; 2] ++ [4; 5; 6])))
      (replicate 6 0) = Ok (0, destination').
Proof.
  apply (decode_truncated [[1; 2]] 4 [5; 6] (replicate 6 0)); try (simpl; lia).
  repeat constructor.
Defined.

(** ** [decode] on whole groups *)

Lemma length_groups_bytes_le (gs : list (list Z)) :
  (length (groups_bytes gs) <= length (groups gs))%nat.
Proof.
  induction gs as [|data gs IH]; [done|].
  rewrite length_groups_cons. cbn [groups_bytes]. unfold group_bytes.
  rewrite !length_app. destruct (_ || _); simpl; lia.
Qed.

Lemma decode_groups_result (gs : list (list Z)) (junk destination : list Z) :
  Forall (fun data => (length data <= 254)%nat) gs ->
  Z.of_nat (length (groups gs)) <= 65535 ->
  Z.of_nat (length (groups gs)) <= Z.of_nat (length destination) ->
  exists destination',
    decode (groups gs ++ junk) (Z.of_nat (length (groups gs))) destination =
      Ok (Z.of_nat (length (groups_bytes gs)), destination') /\
    take (length (groups_bytes gs)) destination' = groups_bytes gs /\
    drop (length (groups_bytes gs)) destination' =
      drop (length (groups_bytes gs)) destination.
Proof.
  intros Hgs H16 Hld.
  exists (splice destination 0 (groups_bytes gs)).
  assert (Hrun : decode_while (length (groups gs)) (groups gs ++ junk)
                   (Z.of_nat (length (groups gs))) (Dec.mk 0 0 destination) =
                 Ok (Continue (Dec.mk (Z.of_nat (length (groups gs)))
                                 (0 + Z.of_nat (length (groups_bytes gs)))
                                 (splice destination 0 (groups_bytes gs))))).
  { apply (decode_groups gs [] junk (groups gs ++ junk)); try done; try (simpl; lia).
    apply length_groups_ge. }
  pose proof (length_groups_bytes_le gs) as Hout.
  split; [|split].
  - unfold decode, decode_fuel. rewrite Nat2Z.id, Hrun. cbn [bind]. done.
  - apply (take_splice destination 0 (groups_bytes gs)). lia.
  - apply drop_splice; simpl; lia.
Qed.

(** X11.  What [decode] makes of a well-formed input, whether or not an
    encoder wrote it: for a sequence of groups (a code byte equal to one
    plus the number of data bytes, then at most 254 data bytes), it writes
    for each group its data bytes, followed by a zero byte unless the code
    byte is 0xFF or the group is the last one; it returns the number of
    bytes written and leaves the rest of the destination as it was. *)
Theorem decode_groups_spec (gs : list (list Z)) (junk destination : list Z) :
  Forall (fun data => (length data <= 254)%nat) gs ->
  Z.of_nat (length (groups gs)) <= 65535 ->
  Z.of_nat (length (groups gs)) <= Z.of_nat (length destination) ->
  exists destination',
    decode (groups gs ++ junk) (Z.of_nat (length (groups gs))) destination =
      Ok (Z.of_nat (length (groups_bytes gs)), destination') /\
    take (length (groups_bytes gs)) destination' = groups_bytes gs /\
    drop (length (groups_bytes gs)) destination' =
      drop (length (groups_bytes gs)) destination.
Proof. apply decode_groups_result. Qed.

Lemma decode_groups_spec_witness :
  exists destination',
    decode (groups [[1; 2]; []; [7]] ++ [0; 0])
      (Z.of_nat (length (groups [[1; 2]; []; [7]]))) (replicate 7 9) =
      Ok (Z.of_nat (length (groups_bytes [[1; 2]; []; [7]])), destination') /\
    take (length (groups_bytes [[1; 2]; []; [7]])) destination' =
      groups_bytes [[1; 2]; []; [7]] /\
    drop (length (groups_bytes [[1; 2]; []; [7]])) destination' =
      drop (length (groups_bytes [[1; 2]; []; [7]])) (replicate 7 9).
Proof.
  apply (decode_groups_spec [[1; 2]; []; [7]] [0; 0] (replicate 7 9));
    [repeat constructor; simpl; lia | simpl; lia | simpl; lia].
Defined.

(** ** [encode] after [decode] *)

Lemma canonical_nonempty (gs : list (list Z)) : canonical gs -> gs <> [].
Proof. by destruct 1. Qed.

Lemma groups_bytes_cons (data : list Z) (gs : list (list Z)) :
  gs <> [] ->
  groups_bytes (data :: gs) =
  data ++ (if Z.of_nat (length data) =? 254 then [] else [0]) ++ groups_bytes gs.
Proof.
  intros Hne. destruct gs as [|g gs]; [done|].
  cbn [groups_bytes]. unfold group_bytes at 1. by rewrite orb_false_r, <- app_assoc.
Qed.

Lemma groups_bytes_last (data : list Z) : groups_bytes [data] = data.
Proof. simpl. unfold group_bytes. by rewrite orb_true_r, !app_nil_r. Qed.

(** The data of the first group is what precedes the first zero byte or
    the 254th byte: two lists of non-zero bytes followed by such tails
    are the same when the whole is. *)
Lemma data_prefix_eq (d1 d2 t1 t2 : list Z) :
  data_ok d1 -> data_ok d2 ->
  d1 ++ t1 = d2 ++ t2 ->
  (forall v l, t1 = v :: l -> v = 0 \/ length d1 = 254%nat) ->
  (forall v l, t2 = v :: l -> v = 0 \/ length d2 = 254%nat) ->
  d1 = d2 /\ t1 = t2.
Proof.
  intros [Hl1 Hnz1] [Hl2 Hnz2] Heq Ht1 Ht2.
  apply app_eq_app in Heq as [l [[-> ->]|[-> ->]]].
  - destruct l as [|v l]; [by rewrite app_nil_r|exfalso].
    apply Forall_app in Hnz1 as [_ Hv]. apply Forall_cons in Hv as [Hv _].
    rewrite length_app in Hl1. simpl in Hl1.
    destruct (Ht2 v (l ++ t1) eq_refl); lia.
  - destruct l as [|v l]; [by rewrite app_nil_r|exfalso].
    apply Forall_app in Hnz2 as [_ Hv]. apply Forall_cons in Hv as [Hv _].
    rewrite length_app in Hl2. simpl in Hl2.
    destruct (Ht1 v (l ++ t2) eq_refl); lia.
Qed.

Lemma canonical_unique (gs1 : list (list Z)) : forall gs2 : list (list Z),
  canonical gs1 -> canonical gs2 ->
  groups_bytes gs1 = groups_bytes gs2 ->
  gs1 = gs2.
Proof.
  assert (Htail : forall (data : list Z) (gs : list (list Z)) v l,
            (if Z.of_nat (length data) =? 254 then [] else [0]) ++ groups_bytes gs = v :: l ->
            v = 0 \/ length data = 254%nat).
  { intros data gs v l. destruct (Z.eqb_spec (Z.of_nat (length data)) 254); [lia|].
    simpl. intros Heq. injection Heq as <- _. by left. }
  intros gs2 Hc1. revert gs2.
  induction Hc1 as [d1 Hd1 Hlast1|d1 gs1 Hd1 Hc1 IH]; intros gs2 Hc2 Heq;
    destruct Hc2 as [d2 Hd2 Hlast2|d2 gs2 Hd2 Hc2].
  - rewrite !groups_bytes_last in Heq. by subst.
  - rewrite groups_bytes_last, groups_bytes_cons in Heq by (by apply canonical_nonempty).
    rewrite <- (app_nil_r d1) in Heq.
    apply data_prefix_eq in Heq as [-> Heq]; try done; [|apply Htail].
    destruct (Z.eqb_spec (Z.of_nat (length d2)) 254); [lia|done].
  - rewrite groups_bytes_last, groups_bytes_cons in Heq by (by apply canonical_nonempty).
    rewrite <- (app_nil_r d2) in Heq.
    apply data_prefix_eq in Heq as [-> Heq]; try done; [|apply Htail].
    destruct (Z.eqb_spec (Z.of_nat (length d2)) 254); [lia|done].
  - rewrite !groups_bytes_cons in Heq by (by apply canonical_nonempty).
    apply data_prefix_eq in Heq as [-> Heq]; try done; try apply Htail.
    apply app_inv_head in Heq. f_equal. by apply IH.
Qed.

Lemma Forall_groups (P : Z -> Prop) (gs : list (list Z)) :
  Forall P (groups gs) -> Forall (Forall P) gs.
Proof.
  induction gs as [|data gs IH]; intros Hall; [by apply Forall_nil|].
  unfold groups in Hall. simpl in Hall.
  apply Forall_cons in Hall as [_ Hall]. apply Forall_app in Hall as [Hdata Hgs].
  apply Forall_cons. split; [done|]. by apply IH.
Qed.

Lemma canonical_snoc (done : list (list Z)) (cur : list Z) :
  Forall data_ok done -> data_ok cur -> (length cur <= 253)%nat ->
  canonical (done ++ [cur]).
Proof.
  intros Hdone Hcur Hlast. induction Hdone as [|data done Hdata _ IH]; simpl.
  - by apply canonical_last.
  - by apply canonical_cons.
Qed.

(** The groups that [encode] writes are canonical. *)
Lemma encode_groups_canonical (header body trailer destination : list Z) :
  bytes header -> bytes body -> bytes trailer ->
  let total := Z.of_nat (length (header ++ body ++ trailer)) in
  total + total / 254 + 1 <= Z.of_nat (length destination) ->
  total + total / 254 + 1 <= 65535 ->
  exists (gs : list (list Z)) (rest : list Z),
    encode header (Z.of_nat (length header)) body (Z.of_nat (length body))
      trailer (Z.of_nat (length trailer)) destination =
      Ok (Z.of_nat (length (groups gs)), groups gs ++ rest) /\
    groups_bytes gs = header ++ body ++ trailer /\
    canonical gs /\
    Z.of_nat (length (groups gs)) <= 65535.
Proof.
  intros Hh Hb Ht total Hcap H16.
  assert (Hdiv : 0 <= total / 254) by (apply Z.div_pos; lia).
  assert (Htotal : total = Z.of_nat (length header) + Z.of_nat (length body) +
                           Z.of_nat (length trailer))
    by (unfold total; rewrite !length_app; lia).
  rewrite encode_bytes by lia.
  destruct destination as [|x destination]; [simpl in Hcap; lia|].
  destruct (enc_rep_run (header ++ body ++ trailer) [] [] []
              (Encoder 1 0 1 (x :: destination)) _ true 0 1
              (enc_rep_init x destination) (enc_inv_init (x :: destination)))
    as (s & done & cur & Hrun & Hrep).
  { by rewrite !bytes_app. }
  { by rewrite Z.add_0_l. }
  { by rewrite Z.add_0_l. }
  destruct (enc_bytes_inv (header ++ body ++ trailer) _ true 0 1 _
              (enc_inv_init (x :: destination))) as (s' & W & Hrun' & Hinv).
  { by rewrite !bytes_app. }
  { rewrite Z.add_0_l. fold total. lia. }
  rewrite Hrun in Hrun'. injection Hrun' as <-.
  destruct (enc_inv_bound _ _ _ _ _ Hinv) as [HWb _].
  rewrite Z.add_0_l in HWb. fold total in HWb.
  pose proof (inv_flushes _ _ _ _ _ Hinv) as Hf. pose proof (inv_n _ _ _ _ _ Hinv) as Hn.
  pose proof (inv_write _ _ _ _ _ Hinv) as HwW.
  pose proof (inv_nonzero _ _ _ _ _ Hinv) as Hnzero.
  rewrite Z.mod_small in HwW by lia.
  rewrite Hrun. cbn [bind]. unfold enc_finish.
  destruct Hrep as [Hin Hdone Hcur Hc Hci Hw (y & rest & Hd)].
  rewrite Hci in Hnzero.
  assert (Hall : forall (i : nat) (v : Z),
            (i < length (groups done) + 1 + length cur)%nat ->
            i <> length (groups done) ->
            enc_dest s !! i = Some v -> 1 <= v <= 255).
  { intros i v Hi Hne Hv.
    destruct (Hnzero (Z.of_nat i)) as (v' & Hv' & Hrange); [lia|lia|].
    rewrite Nat2Z.id, Hv in Hv'. by injection Hv' as <-. }
  assert (Hgroups : Forall (fun v => 1 <= v <= 255) (groups done)).
  { apply Forall_lookup. intros i v Hv.
    pose proof (lookup_lt_Some _ _ _ Hv) as Hi.
    apply (Hall i v); [lia|lia|]. rewrite Hd. by apply lookup_app_l_Some. }
  assert (Hcurnz : Forall (fun v => 1 <= v <= 255) cur).
  { apply Forall_lookup. intros i v Hv.
    pose proof (lookup_lt_Some _ _ _ Hv) as Hi.
    apply (Hall (length (groups done) + 1 + i)%nat v); [lia|lia|].
    rewrite Hd. rewrite lookup_app_r by lia.
    replace (length (groups done) + 1 + i - length (groups done))%nat with (S i) by lia.
    simpl. by apply lookup_app_l_Some. }
  rewrite Hd, Hci, Hw, (store_middle (groups done)) by done. cbn [bind].
  exists (done ++ [cur]), rest. rewrite groups_snoc. split; [|split; [|split]].
  - unfold group. rewrite Hc, length_app. simpl. f_equal. f_equal; [lia|by app_norm].
  - rewrite groups_bytes_snoc. by rewrite app_nil_l in Hin.
  - apply canonical_snoc; [|split; [lia|done]|done].
    apply Forall_groups in Hgroups.
    rewrite Forall_forall in Hdone, Hgroups. apply Forall_forall.
    intros data Hdata. split; [by apply Hdone|by apply Hgroups].
  - rewrite length_app, length_group. lia.
Qed.

(** X12.  The code that [encode] writes is canonical: it is a sequence of
    groups, each a code byte equal to one plus the number of its data
    bytes followed by at most 254 non-zero data bytes, the last group with
    at most 253; and it stands for the input ([groups_bytes]). *)
Theorem encode_canonical (header body trailer destination : list Z) :
  bytes header -> bytes body -> bytes trailer ->
  let total := Z.of_nat (length (header ++ body ++ trailer)) in
  total + total / 254 + 1 <= Z.of_nat (length destination) ->
  total + total / 254 + 1 <= 65535 ->
  exists (gs : list (list Z)) (rest : list Z),
    encode header (Z.of_nat (length header)) body (Z.of_nat (length body))
      trailer (Z.of_nat (length trailer)) destination =
      Ok (Z.of_nat (length (groups gs)), groups gs ++ rest) /\
    groups_bytes gs = header ++ body ++ trailer /\
    canonical gs.
Proof.
  intros Hh Hb Ht total Hcap H16.
  destruct (encode_groups_canonical header body trailer destination)
    as (gs & rest & Henc & Hbytes & Hcan & _); try done.
  by exists gs, rest.
Qed.

Lemma encode_canonical_witness :
  exists (gs : list (list Z)) (rest : list Z),
    encode [1; 2] 2 [0; 3] 2 [4] 1 (replicate 7 9) =
      Ok (Z.of_nat (length (groups gs)), groups gs ++ rest) /\
    groups_bytes gs = [1; 2] ++ [0; 3] ++ [4] /\
    canonical gs.
Proof.
  apply (encode_canonical [1; 2] [0; 3] [4] (replicate 7 9));
    try reflexivity; vm_compute; discriminate.
Defined.

Lemma canonical_lengths (gs : list (list Z)) :
  canonical gs -> Forall (fun data => (length data <= 254)%nat) gs.
Proof.
  induction 1 as [data [Hlen _] _|data gs [Hlen _] _ IH].
  - by apply Forall_singleton.
  - by apply Forall_cons.
Qed.

Lemma bytes_Forall (l : list Z) : Forall (fun v => 0 <= v <= 255) l -> bytes l.
Proof.
  unfold bytes. induction 1 as [|v l Hv _ IH]; [done|].
  simpl. rewrite IH. unfold byteb. apply andb_true_iff. split; [|done].
  apply andb_true_iff. lia.
Qed.

Lemma canonical_bytes (gs : list (list Z)) : canonical gs -> bytes (groups_bytes gs).
Proof.
  induction 1 as [data [_ Hnz] _|data gs [_ Hnz] Hgs IH].
  - rewrite groups_bytes_last. apply bytes_Forall.
    eapply Forall_impl; [exact Hnz|]. simpl. lia.
  - rewrite groups_bytes_cons by (by apply canonical_nonempty).
    rewrite !bytes_app. split; [|split; [by destruct (_ =? _)|done]].
    apply bytes_Forall. eapply Forall_impl; [exact Hnz|]. simpl. lia.
Qed.

(** X13.  [encode] undoes [decode] on canonical codes: when [decode] is
    given a canonical code, [encode] of the bytes it wrote gives that code
    back, with its length. *)
Theorem encode_after_decode (gs : list (list Z)) (buffer destination : list Z) :
  canonical gs ->
  let total := Z.of_nat (length (groups_bytes gs)) in
  total + total / 254 + 1 <= 65535 ->
  total + total / 254 + 1 <= Z.of_nat (length destination) ->
  Z.of_nat (length (groups gs)) <= Z.of_nat (length buffer) ->
  exists (decodedLen : Z) (decoded encoded : list Z),
    decode (groups gs) (Z.of_nat (length (groups gs))) buffer =
      Ok (decodedLen, decoded) /\
    encode [] 0 (take (Z.to_nat decodedLen) decoded) decodedLen [] 0 destination =
      Ok (Z.of_nat (length (groups gs)), encoded) /\
    take (length (groups gs)) encoded = groups gs.
Proof.
  intros Hcan total H16 Hcap Hbuf.
  pose proof (canonical_bytes gs Hcan) as Hbytes.
  destruct (encode_groups_canonical [] (groups_bytes gs) [] destination)
    as (gs' & rest & Henc & Hsame & Hcan' & Hlen16);
    try done; try (by rewrite app_nil_r).
  rewrite app_nil_l, app_nil_r in Hsame.
  apply canonical_unique in Hsame; [|done|done]. subst gs'.
  destruct (decode_groups_result gs [] buffer) as (decoded & Hdec & Htake & _);
    try done; [by apply canonical_lengths|].
  rewrite app_nil_r in Hdec.
  exists (Z.of_nat (length (groups_bytes gs))), decoded, (groups gs ++ rest).
  split; [done|]. rewrite Nat2Z.id, Htake. split; [exact Henc|].
  apply take_app_length.
Qed.

Lemma encode_after_decode_witness :
  exists (decodedLen : Z) (decoded encoded : list Z),
    decode (groups [[1; 2]; [3]; []]) (Z.of_nat (length (groups [[1; 2]; [3]; []])))
      (replicate 6 0) = Ok (decodedLen, decoded) /\
    encode [] 0 (take (Z.to_nat decodedLen) decoded) decodedLen [] 0 (replicate 6 0) =
      Ok (Z.of_nat (length (groups [[1; 2]; [3]; []])), encoded) /\
    take (length (groups [[1; 2]; [3]; []])) encoded = groups [[1; 2]; [3]; []].
Proof.
  apply (encode_after_decode [[1; 2]; [3]; []] (replicate 6 0) (replicate 6 0));
    try (vm_compute; discriminate).
  apply canonical_cons; [split; [simpl; lia|repeat constructor; lia]|].
  apply canonical_cons; [split; [simpl; lia|repeat constructor; lia]|].
  apply canonical_last; [split; [simpl; lia|constructor]|simpl; lia].
Defined.

(** ** [encode] stops, and not on a read *)

Lemma enc_bytes_reads (l : list Z) : forall s : encoder,
  reads_in_bounds (fun _ => True) (enc_bytes l s).
Proof.
  induction l as [|b l IH]; intros s; [done|].
  cbn [enc_bytes]. destruct s as [w ci c d]. unfold enc_byte.
  destruct (b =? 0).
  - rewrite bind_assoc. apply store_reads_in_bounds. intros d1. apply IH.
  - rewrite bind_assoc. apply store_reads_in_bounds. intros d1.
    destruct (uint8 (c + 1) =? 255).
    + rewrite bind_assoc. apply store_reads_in_bounds. intros d2. apply IH.
    + apply IH.
Qed.

(** X14.  [encode] is safe on its sources and terminates, whatever the
    destination: when each source holds at least the number of bytes given
    as its size, [encode] returns or stops on a write outside the
    destination; it never reads outside a source and its loops never run
    out of iterations. *)
Theorem encode_reads_in_bounds (sourceHeader : list Z) (sourceHeaderSize : Z)
    (sourceBody : list Z) (sourceBodySize : Z)
    (sourceTrailer : list Z) (sourceTrailerSize : Z) (destination : list Z) :
  0 <= sourceHeaderSize <= Z.min 65535 (Z.of_nat (length sourceHeader)) ->
  0 <= sourceBodySize <= Z.min 65535 (Z.of_nat (length sourceBody)) ->
  0 <= sourceTrailerSize <= Z.min 65535 (Z.of_nat (length sourceTrailer)) ->
  (forall i, encode sourceHeader sourceHeaderSize sourceBody sourceBodySize
               sourceTrailer sourceTrailerSize destination <> ReadFault i) /\
  encode sourceHeader sourceHeaderSize sourceBody sourceBodySize
    sourceTrailer sourceTrailerSize destination <> OutOfFuel.
Proof.
  intros Hh Hb Ht.
  assert (Hreads : reads_in_bounds (fun _ => True)
            (encode sourceHeader sourceHeaderSize sourceBody sourceBodySize
               sourceTrailer sourceTrailerSize destination)).
  { rewrite encode_take.
    replace sourceHeaderSize
      with (Z.of_nat (length (take (Z.to_nat sourceHeaderSize) sourceHeader))) at 2
      by (rewrite length_take; lia).
    replace sourceBodySize
      with (Z.of_nat (length (take (Z.to_nat sourceBodySize) sourceBody))) at 2
      by (rewrite length_take; lia).
    replace sourceTrailerSize
      with (Z.of_nat (length (take (Z.to_nat sourceTrailerSize) sourceTrailer))) at 2
      by (rewrite length_take; lia).
    rewrite encode_bytes by (rewrite length_take; lia).
    pose proof (enc_bytes_reads
                  (take (Z.to_nat sourceHeaderSize) sourceHeader ++
                   take (Z.to_nat sourceBodySize) sourceBody ++
                   take (Z.to_nat sourceTrailerSize) sourceTrailer)
                  (Encoder 1 0 1 destination)) as Hrun.
    destruct (enc_bytes _ _) as [s| | |]; cbn [bind]; try done.
    unfold enc_finish. by apply store_reads_in_bounds. }
  split; [intros i Heq|intros Heq]; by rewrite Heq in Hreads.
Qed.

Lemma encode_reads_in_bounds_witness :
  (forall i, encode [1; 2; 3] 2 [0; 3] 2 [4] 0 [0; 0] <> ReadFault i) /\
  encode [1; 2; 3] 2 [0; 3] 2 [4] 0 [0; 0] <> OutOfFuel.
Proof.
  apply (encode_reads_in_bounds [1; 2; 3] 2 [0; 3] 2 [4] 0 [0; 0]); simpl; lia.
Defined.
